(** * ECDSA core of leedexjs: deterministic nonces, signing, verification, key recovery

    Shallow embedding of [ecc/src/ecdsa.js].  Big integers are [Z], buffers
    are lists of bytes, thrown errors are explicit completions, and the
    collaborators the module imports (the hash primitives, the curve of
    [ecurve], the integers of [bigi]) are interfaces with their contracts. *)

From Stdlib Require Import ZArith Zcong Zdivisibility List Bool Lia Strings.Byte.
Import ListNotations.
Local Open Scope Z_scope.

(** ** Completions of a JavaScript call *)

(** One constructor per [throw] site reachable from the module. *)
Inductive Error : Type :=
| HashMustBe256Bit                 (* assert.equal(hash.length, 32, "Hash must be 256 bit") *)
| RecoveryParamMoreThanTwoBits     (* assert.strictEqual(i & 3, i, ...) *)
| InvalidRValue                    (* assert(r.signum() > 0 && r.compareTo(n) < 0, ...) *)
| InvalidSValue                    (* assert(s.signum() > 0 && s.compareTo(n) < 0, ...) *)
| NRNotValidCurvePoint             (* assert(curve.isInfinity(nR), ...) *)
| UnableToFindValidRecoveryFactor  (* throw new Error("Unable to find valid recovery factor") *)
| CurveRejectedPoint               (* raised inside curve.pointFromX / curve.validate *)
| DivisionByZero                   (* raised inside BigInteger.modInverse *)
| TypeError.                       (* property access on undefined / on the point at infinity *)

(** The error taxonomy of the specification. *)
Inductive ErrorKind : Type :=
| InputValidation
| InvalidCurvePoint
| RecoveryFailure
| RecoveryNotFound.

Definition kind (e : Error) : option ErrorKind :=
  match e with
  | HashMustBe256Bit | RecoveryParamMoreThanTwoBits
  | InvalidRValue | InvalidSValue => Some InputValidation
  | CurveRejectedPoint => Some InvalidCurvePoint
  | NRNotValidCurvePoint => Some RecoveryFailure
  | UnableToFindValidRecoveryFactor => Some RecoveryNotFound
  | DivisionByZero | TypeError => None
  end.

(** A call returns normally, throws, or (for the one unbounded loop) is cut
    off by the fuel of the model. *)
Inductive completion (A : Type) : Type :=
| Normal (a : A)
| Throw (e : Error)
| OutOfFuel.

Arguments Normal {A} a.
Arguments Throw {A} e.
Arguments OutOfFuel {A}.

Definition bind {A B : Type} (c : completion A) (k : A -> completion B) : completion B :=
  match c with
  | Normal a => k a
  | Throw e => Throw e
  | OutOfFuel => OutOfFuel
  end.

Declare Scope js_scope.
Delimit Scope js_scope with js.
Notation "x <- c ;; k" := (bind c (fun x => k))
  (at level 61, c at next level, right associativity) : js_scope.
Notation "' pat <- c ;; k" := (bind c (fun x => match x with pat => k end))
  (at level 61, pat pattern, c at next level, right associativity) : js_scope.
Local Open Scope js_scope.

(** [assert(cond, msg)] *)
Definition assert (cond : bool) (e : Error) : completion unit :=
  if cond then Normal tt else Throw e.

(** ** Buffers *)

Module Buffer.
Definition t : Type := list byte.

Definition byte_of_Z (z : Z) : byte :=
  match Byte.of_N (Z.to_N (z mod 256)) with
  | Some b => b
  | None => x00
  end.

Definition Z_of_byte (b : byte) : Z := Z.of_N (Byte.to_N b).

(** [Buffer.alloc(size)]: a zero-filled buffer. *)
Definition alloc (size : N) : t := repeat x00 (N.to_nat size).

(** [buf.fill(value)] *)
Definition fill (buf : t) (value : Z) : t := map (fun _ => byte_of_Z value) buf.

(** [Buffer.from([a, b, ...])] *)
Definition from (octets : list Z) : t := map byte_of_Z octets.

(** [Buffer.concat([b1, b2, ...])] *)
Definition concat (parts : list t) : t := List.concat parts.

Definition length (buf : t) : Z := Z.of_nat (List.length buf).
End Buffer.

(** ** Big integers (the [bigi] collaborator)

    Modelled from the spec: section 6 asks of the big integers modular
    arithmetic, modular inverse, comparison, sign test, bit shift and the
    fixed-width big-endian encoding and decoding.  A big integer is a [Z];
    sums, products and differences are those of [Z]. *)

Module BigInteger.
Definition signum (a : Z) : Z := Z.sgn a.

Definition compareTo (a b : Z) : Z := Z.sgn (a - b).

(** [BigInteger.fromBuffer]: unsigned big-endian decoding. *)
Definition fromBuffer (buf : Buffer.t) : Z :=
  fold_left (fun acc b => acc * 256 + Buffer.Z_of_byte b) buf 0.

Fixpoint octets (fuel : nat) (z : Z) (acc : Buffer.t) : Buffer.t :=
  match fuel with
  | O => acc
  | S fuel' =>
      if z <=? 0 then acc
      else octets fuel' (z / 256) (Buffer.byte_of_Z z :: acc)
  end.

(** [toByteArrayUnsigned]: the shortest big-endian encoding. *)
Definition toByteArrayUnsigned (z : Z) : Buffer.t :=
  octets (S (Z.to_nat (Z.log2 z))) z [].

(** [a.toBuffer(size)] for a non-negative [a]: big-endian, left-padded with
    zeros up to [size] (and longer than [size] when [a] does not fit). *)
Definition toBuffer (a : Z) (size : nat) : Buffer.t :=
  let byteArray := toByteArrayUnsigned a in
  repeat x00 (size - List.length byteArray) ++ byteArray.

(** [a.mod(m)]: remainder of the absolute value, folded back into
    [[0, m)] for a negative receiver. *)
Definition mod_ (a m : Z) : Z :=
  let r := Z.rem (Z.abs a) m in
  if (a <? 0) && (0 <? r) then m - r else r.

(** [a.modInverse(m)]: the inverse of [a] modulo [m] in [[0, m)] when there
    is one; a zero receiver is refused with an error. *)
Definition modInverse (a m : Z) : completion Z :=
  if signum a =? 0 then Throw DivisionByZero else Normal (Z.invmod a m).

Definition shiftRight (a k : Z) : Z := Z.shiftr a k.
End BigInteger.

(** ** Hash primitives (the [./hash] collaborator)

    Modelled from the spec: section 6 gives SHA-256 and HMAC-SHA-256 as
    functions from byte sequences to digests.  They are parameters of the
    development; nothing but the length of a digest is assumed of them. *)

Class HashPrimitives : Type := {
  sha256 : Buffer.t -> Buffer.t;
  (** [HmacSHA256(buffer, secret)]: message first, key second. *)
  HmacSHA256 : Buffer.t -> Buffer.t -> Buffer.t
}.

(** ** Curves and points (the [ecurve] collaborator)

    Modelled from the spec: section 6 lists the order [n], the generator
    [G], scalar multiplication, the combined double-scalar multiplication,
    the test for the point at infinity, the reconstruction of a point from
    an abscissa and a parity, validation and equality.  [add], [negate] and
    [infinity] state the contract of the others. *)

Module ecurve.
Record Curve {Point : Type} : Type := {
  n : Z;
  G : Point;
  infinity : Point;
  isInfinity : Point -> bool;
  (** [curve.pointFromX(isOdd, x)]; [None] when it throws. *)
  pointFromX : bool -> Z -> option Point;
  (** [curve.validate(Q)]; [false] when it throws. *)
  validate : Point -> bool;
  add : Point -> Point -> Point;
  negate : Point -> Point;
  multiply : Point -> Z -> Point;
  (** [P.multiplyTwo(j, Q, k)] is [j.P + k.Q]. *)
  multiplyTwo : Point -> Z -> Point -> Z -> Point;
  (** [P.affineX]; [None] at the point at infinity, where the getter throws. *)
  affineX : Point -> option Z;
  equals : Point -> Point -> bool
}.
Arguments Curve Point : clear implicits.
End ecurve.

(** ** Signatures ([./ecsignature])

    Modelled from the spec: a signature is the pair [(r, s)] of section 3. *)

Module ECSignature.
Record t : Type := new { r : Z; s : Z }.
End ECSignature.

(** ** The module [ecdsa.js] *)

Section Ecdsa.
Context {hash_primitives : HashPrimitives}.
Context {Point : Type}.

(** [if (nonce)]: an omitted nonce and the number 0 are both falsy. *)
Definition truthy (nonce : option N) : bool :=
  match nonce with
  | Some size => negb (N.eqb size 0)
  | None => false
  end.

Definition nonce_size (nonce : option N) : N :=
  match nonce with
  | Some size => size
  | None => 0%N
  end.

(** A JavaScript callback that reads and writes captured variables of
    type [Env]. *)
Definition callback (Env : Type) : Type := Z -> Env -> completion (bool * Env).

(** Step H3: the [while] loop.  [fuel] bounds the number of times the loop
    test is evaluated. *)
Fixpoint generateK_loop {Env : Type} (fuel : nat) (curve : ecurve.Curve Point)
    (checkSig : callback Env) (k v : Buffer.t) (T : Z) (env : Env)
    : completion (Z * Env) :=
  match fuel with
  | O => OutOfFuel
  | S fuel' =>
      let body (env' : Env) :=
        let k := HmacSHA256 (Buffer.concat [v; Buffer.from [0]]) k in
        let v := HmacSHA256 v k in
        let v := HmacSHA256 v k in
        let T := BigInteger.fromBuffer v in
        generateK_loop fuel' curve checkSig k v T env' in
      if (BigInteger.signum T <=? 0) || (BigInteger.compareTo T (ecurve.n curve) >=? 0)
      then body env
      else
        '(accepted, env') <- checkSig T env ;;
        if negb accepted then body env' else Normal (T, env')
  end.

Definition deterministicGenerateK {Env : Type} (fuel : nat)
    (curve : ecurve.Curve Point) (hash : Buffer.t) (d : Z)
    (checkSig : callback Env) (nonce : option N) (env : Env)
    : completion (Z * Env) :=
  let hash :=
    if truthy nonce
    then sha256 (Buffer.concat [hash; Buffer.alloc (nonce_size nonce)])
    else hash in
  _ <- assert (Buffer.length hash =? 32) HashMustBe256Bit ;;
  let x := BigInteger.toBuffer d 32 in
  let k := Buffer.alloc 32 in
  let v := Buffer.alloc 32 in
  let v := Buffer.fill v 1 in
  let k := Buffer.fill k 0 in
  let k := HmacSHA256 (Buffer.concat [v; Buffer.from [0]; x; hash]) k in
  let v := HmacSHA256 v k in
  let k := HmacSHA256 (Buffer.concat [v; Buffer.from [1]; x; hash]) k in
  let v := HmacSHA256 v k in
  let v := HmacSHA256 v k in
  let T := BigInteger.fromBuffer v in
  generateK_loop fuel curve checkSig k v T env.

(** The variables [r] and [s] of [sign], captured and assigned by its
    callback; [None] is [undefined]. *)
Record sign_vars : Type := { var_r : option Z; var_s : option Z }.

(** The anonymous callback of [sign]. *)
Definition sign_callback (curve : ecurve.Curve Point) (e d : Z) : callback sign_vars :=
  fun k vars =>
    let n := ecurve.n curve in
    let G := ecurve.G curve in
    let Q := ecurve.multiply curve G k in
    if ecurve.isInfinity curve Q then Normal (false, vars)
    else
      match ecurve.affineX curve Q with
      | None => Throw TypeError
      | Some affineX =>
          let r := BigInteger.mod_ affineX n in
          let vars := {| var_r := Some r; var_s := var_s vars |} in
          if BigInteger.signum r =? 0 then Normal (false, vars)
          else
            kInv <- BigInteger.modInverse k n ;;
            let s := BigInteger.mod_ (kInv * (e + d * r)) n in
            let vars := {| var_r := Some r; var_s := Some s |} in
            if BigInteger.signum s =? 0 then Normal (false, vars)
            else Normal (true, vars)
      end.

Definition sign (fuel : nat) (curve : ecurve.Curve Point) (hash : Buffer.t)
    (d : Z) (nonce : option N) : completion ECSignature.t :=
  let e := BigInteger.fromBuffer hash in
  let n := ecurve.n curve in
  '(_, vars) <- deterministicGenerateK fuel curve hash d (sign_callback curve e d)
                  nonce {| var_r := None; var_s := None |} ;;
  let N_OVER_TWO := BigInteger.shiftRight n 1 in
  match var_s vars, var_r vars with
  | Some s, Some r =>
      let s := if BigInteger.compareTo s N_OVER_TWO >? 0 then n - s else s in
      Normal (ECSignature.new r s)
  | _, _ => Throw TypeError
  end.

Definition verifyRaw (curve : ecurve.Curve Point) (e : Z)
    (signature : ECSignature.t) (Q : Point) : completion bool :=
  let n := ecurve.n curve in
  let G := ecurve.G curve in
  let r := ECSignature.r signature in
  let s := ECSignature.s signature in
  if (BigInteger.signum r <=? 0) || (BigInteger.compareTo r n >=? 0) then Normal false
  else if (BigInteger.signum s <=? 0) || (BigInteger.compareTo s n >=? 0) then Normal false
  else
    c <- BigInteger.modInverse s n ;;
    let u1 := BigInteger.mod_ (e * c) n in
    let u2 := BigInteger.mod_ (r * c) n in
    let R := ecurve.multiplyTwo curve G u1 Q u2 in
    if ecurve.isInfinity curve R then Normal false
    else
      match ecurve.affineX curve R with
      | None => Throw TypeError
      | Some xR =>
          let v := BigInteger.mod_ xR n in
          Normal (v =? r)
      end.

Definition verify (curve : ecurve.Curve Point) (hash : Buffer.t)
    (signature : ECSignature.t) (Q : Point) : completion bool :=
  let e := BigInteger.fromBuffer hash in
  verifyRaw curve e signature Q.

Definition recoverPubKey (curve : ecurve.Curve Point) (e : Z)
    (signature : ECSignature.t) (i : Z) : completion Point :=
  _ <- assert (Z.land i 3 =? i) RecoveryParamMoreThanTwoBits ;;
  let n := ecurve.n curve in
  let G := ecurve.G curve in
  let r := ECSignature.r signature in
  let s := ECSignature.s signature in
  _ <- assert ((BigInteger.signum r >? 0) && (BigInteger.compareTo r n <? 0))
         InvalidRValue ;;
  _ <- assert ((BigInteger.signum s >? 0) && (BigInteger.compareTo s n <? 0))
         InvalidSValue ;;
  let isYOdd := Z.land i 1 in
  let isSecondKey := Z.shiftr i 1 in
  let x := if negb (isSecondKey =? 0) then r + n else r in
  match ecurve.pointFromX curve (negb (isYOdd =? 0)) x with
  | None => Throw CurveRejectedPoint
  | Some R =>
      let nR := ecurve.multiply curve R n in
      _ <- assert (ecurve.isInfinity curve nR) NRNotValidCurvePoint ;;
      let eNeg := BigInteger.mod_ (- e) n in
      rInv <- BigInteger.modInverse r n ;;
      let Q := ecurve.multiply curve (ecurve.multiplyTwo curve R s G eNeg) rInv in
      _ <- assert (ecurve.validate curve Q) CurveRejectedPoint ;;
      Normal Q
  end.

(** The [for (var i = 0; i < 4; i++)] loop, entered at [i] with
    [remaining = 4 - i] iterations to go. *)
Fixpoint recovery_search (remaining : nat) (curve : ecurve.Curve Point) (e : Z)
    (signature : ECSignature.t) (Q : Point) (i : Z) : completion Z :=
  match remaining with
  | O => Throw UnableToFindValidRecoveryFactor
  | S remaining' =>
      Qprime <- recoverPubKey curve e signature i ;;
      if ecurve.equals curve Qprime Q then Normal i
      else recovery_search remaining' curve e signature Q (i + 1)
  end.

Definition calcPubKeyRecoveryParam (curve : ecurve.Curve Point) (e : Z)
    (signature : ECSignature.t) (Q : Point) : completion Z :=
  recovery_search 4 curve e signature Q 0.

End Ecdsa.

(** ** The nonce generator as the specification words it

    Section 4.1 of the specification writes the derivation with the key as
    the first argument of the MAC and with one loop that recomputes [V] at
    its head.  [Rfc6979.generate] follows that text; it is compared with
    [deterministicGenerateK] below. *)

Module Rfc6979.
Section Spec.
Context {hash_primitives : HashPrimitives}.

Definition HMAC_SHA256 (K M : Buffer.t) : Buffer.t := HmacSHA256 M K.

Definition d_bytes (d : Z) : Buffer.t := BigInteger.toBuffer d 32.

Definition zero_bytes (count : N) : Buffer.t := repeat x00 (N.to_nat count).

(** Step 5. *)
Fixpoint search (fuel : nat) (n : Z) (accept : Z -> bool) (K V : Buffer.t)
    : completion Z :=
  match fuel with
  | O => OutOfFuel
  | S fuel' =>
      let V := HMAC_SHA256 K V in
      let T := BigInteger.fromBuffer V in
      if (1 <=? T) && (T <? n) && accept T then Normal T
      else
        let K := HMAC_SHA256 K (V ++ [x00]) in
        let V := HMAC_SHA256 K V in
        search fuel' n accept K V
  end.

(** Steps 1 to 5. *)
Definition generate (fuel : nat) (n : Z) (digest : Buffer.t) (d : Z)
    (accept : Z -> bool) (nonce : option N) : completion Z :=
  let digest :=
    match nonce with
    | Some (Npos count) => sha256 (digest ++ zero_bytes (Npos count))
    | _ => digest
    end in
  let V := repeat x01 32 in
  let K := repeat x00 32 in
  let K := HMAC_SHA256 K (V ++ [x00] ++ d_bytes d ++ digest) in
  let V := HMAC_SHA256 K V in
  let K := HMAC_SHA256 K (V ++ [x01] ++ d_bytes d ++ digest) in
  let V := HMAC_SHA256 K V in
  search fuel n accept K V.
End Spec.
End Rfc6979.

(** A side-effect free acceptance predicate used as a callback. *)
Definition pure_callback (accept : Z -> bool) : callback unit :=
  fun T env => Normal (accept T, env).

(** ** Contracts of the collaborators *)

(** Modelled from the spec: the hash primitives return "a fixed 32-byte
    digest" (section 6). *)
Record HashLaws (hash_primitives : HashPrimitives) : Prop := {
  sha256_length : forall buf, Buffer.length (sha256 buf) = 32
}.

(** Modelled from the spec: the curve is a commutative group of prime
    order [n] generated by [G] (sections 3 and 6); [multiply] and
    [multiplyTwo] are its scalar multiplications on non-negative scalars;
    points are compared by their coordinates; the abscissa is defined away
    from the point at infinity and ignores the sign of a point; a validated
    point is not the point at infinity. *)
Record CurveLaws {Point : Type} (curve : ecurve.Curve Point) : Prop := {
  order_prime : Z.prime (ecurve.n curve);
  add_assoc : forall P Q R,
    ecurve.add curve P (ecurve.add curve Q R) = ecurve.add curve (ecurve.add curve P Q) R;
  add_comm : forall P Q, ecurve.add curve P Q = ecurve.add curve Q P;
  add_infinity : forall P, ecurve.add curve (ecurve.infinity curve) P = P;
  add_negate : forall P, ecurve.add curve P (ecurve.negate curve P) = ecurve.infinity curve;
  isInfinity_spec : forall P, ecurve.isInfinity curve P = true <-> P = ecurve.infinity curve;
  equals_spec : forall P Q, ecurve.equals curve P Q = true <-> P = Q;
  multiply_zero : forall P, ecurve.multiply curve P 0 = ecurve.infinity curve;
  multiply_step : forall P k, 0 <= k ->
    ecurve.multiply curve P (k + 1) = ecurve.add curve P (ecurve.multiply curve P k);
  multiplyTwo_spec : forall P j Q k, 0 <= j -> 0 <= k ->
    ecurve.multiplyTwo curve P j Q k
    = ecurve.add curve (ecurve.multiply curve P j) (ecurve.multiply curve Q k);
  G_finite : ecurve.G curve <> ecurve.infinity curve;
  G_order : ecurve.multiply curve (ecurve.G curve) (ecurve.n curve) = ecurve.infinity curve;
  affineX_defined : forall P, ecurve.affineX curve P = None <-> P = ecurve.infinity curve;
  affineX_negate : forall P, ecurve.affineX curve (ecurve.negate curve P) = ecurve.affineX curve P;
  validate_finite : forall Q, ecurve.validate curve Q = true -> Q <> ecurve.infinity curve
}.

(** Modelled from the spec: reconstruction gives "the curve point with
    X-coordinate x and the given Y parity" (section 4.3).  Every finite
    point is the point of its abscissa for one of the two parities, the
    other parity gives the opposite point, and every finite point of the
    group passes validation. *)
Record RecoveryLaws {Point : Type} (curve : ecurve.Curve Point) : Prop := {
  pointFromX_complete : forall P x,
    ecurve.affineX curve P = Some x ->
    exists isOdd, ecurve.pointFromX curve isOdd x = Some P;
  pointFromX_opposite : forall isOdd x R,
    ecurve.pointFromX curve isOdd x = Some R ->
    ecurve.pointFromX curve (negb isOdd) x = Some (ecurve.negate curve R);
  validate_complete : forall Q,
    Q <> ecurve.infinity curve -> ecurve.validate curve Q = true
}.

(** ** A small instance of the collaborators

    The curve [y^2 = x^3 + 3x + 18] over the field of 19 elements has 13
    points, all multiples of [(3, 4)].  Points are enumerated, so that
    every inhabitant of the type lies on the curve; the group law is the
    chord-and-tangent rule on their coordinates. *)

Module Toy.
Definition p : Z := 19.
Definition a : Z := 3.
Definition b : Z := 18.

Inductive point : Type :=
| Inf
| P3_4 | P3_15 | P5_5 | P5_14 | P6_9 | P6_10
| P14_7 | P14_12 | P16_1 | P16_18 | P17_2 | P17_17.

Definition all_points : list point :=
  [Inf; P3_4; P3_15; P5_5; P5_14; P6_9; P6_10;
   P14_7; P14_12; P16_1; P16_18; P17_2; P17_17].

Definition coords (P : point) : option (Z * Z) :=
  match P with
  | Inf => None
  | P3_4 => Some (3, 4) | P3_15 => Some (3, 15)
  | P5_5 => Some (5, 5) | P5_14 => Some (5, 14)
  | P6_9 => Some (6, 9) | P6_10 => Some (6, 10)
  | P14_7 => Some (14, 7) | P14_12 => Some (14, 12)
  | P16_1 => Some (16, 1) | P16_18 => Some (16, 18)
  | P17_2 => Some (17, 2) | P17_17 => Some (17, 17)
  end.

Definition same_coords (c1 c2 : option (Z * Z)) : bool :=
  match c1, c2 with
  | None, None => true
  | Some (x1, y1), Some (x2, y2) => (x1 =? x2) && (y1 =? y2)
  | _, _ => false
  end.

(** The point with the given coordinates (the point at infinity when
    there is none). *)
Definition of_coords (c : option (Z * Z)) : point :=
  match find (fun P => same_coords (coords P) c) all_points with
  | Some P => P
  | None => Inf
  end.

Definition on_curve (c : option (Z * Z)) : bool :=
  match c with
  | None => true
  | Some (x, y) =>
      (0 <=? x) && (x <? p) && (0 <=? y) && (y <? p)
      && ((y * y) mod p =? (x * x * x + a * x + b) mod p)
  end.

(** Chord and tangent. *)
Definition affine_add (c1 c2 : option (Z * Z)) : option (Z * Z) :=
  match c1, c2 with
  | None, _ => c2
  | _, None => c1
  | Some (x1, y1), Some (x2, y2) =>
      if (x1 =? x2) && ((y1 + y2) mod p =? 0) then None
      else
        let lambda :=
          if (x1 =? x2)
          then ((3 * x1 * x1 + a) * Z.invmod (2 * y1) p) mod p
          else ((y2 - y1) * Z.invmod (x2 - x1) p) mod p in
        let x3 := (lambda * lambda - x1 - x2) mod p in
        let y3 := (lambda * (x1 - x3) - y1) mod p in
        Some (x3, y3)
  end.

Definition add (P Q : point) : point := of_coords (affine_add (coords P) (coords Q)).

Definition negate (P : point) : point :=
  match coords P with
  | None => Inf
  | Some (x, y) => of_coords (Some (x, (p - y) mod p))
  end.

Definition multiply (P : point) (k : Z) : point := Z.iter k (add P) Inf.

Definition multiplyTwo (P : point) (j : Z) (Q : point) (k : Z) : point :=
  add (multiply P j) (multiply Q k).

Definition isInfinity (P : point) : bool :=
  match P with Inf => true | _ => false end.

Definition equals (P Q : point) : bool := same_coords (coords P) (coords Q).

Definition affineX (P : point) : option Z := option_map fst (coords P).

(** Square roots by exponentiation, [p = 3 mod 4]; the abscissa must be a
    field element with a point above it. *)
Definition pointFromX (isOdd : bool) (x : Z) : option point :=
  if (0 <=? x) && (x <? p) then
    let alpha := (x * x * x + a * x + b) mod p in
    let beta := (alpha ^ ((p + 1) / 4)) mod p in
    let y := if xorb (Z.even beta) (negb isOdd) then p - beta else beta in
    if on_curve (Some (x, y)) then Some (of_coords (Some (x, y))) else None
  else None.

Definition validate (Q : point) : bool :=
  negb (isInfinity Q) && on_curve (coords Q) && isInfinity (multiply Q 13).

Definition curve : ecurve.Curve point := {|
  ecurve.n := 13;
  ecurve.G := P3_4;
  ecurve.infinity := Inf;
  ecurve.isInfinity := isInfinity;
  ecurve.pointFromX := pointFromX;
  ecurve.validate := validate;
  ecurve.add := add;
  ecurve.negate := negate;
  ecurve.multiply := multiply;
  ecurve.multiplyTwo := multiplyTwo;
  ecurve.affineX := affineX;
  ecurve.equals := equals
|}.

(** A stand-in for the hash primitives: 32-byte outputs that encode a
    small checksum of the inputs, so that candidates fall below the order
    of the small curve. *)
Definition checksum (buf : Buffer.t) : Z :=
  fold_left (fun acc byte => acc * 3 + Buffer.Z_of_byte byte + 1) buf 0.

Definition digest_of (z : Z) : Buffer.t := BigInteger.toBuffer z 32.

Definition toy_sha256 (buf : Buffer.t) : Buffer.t :=
  digest_of (checksum buf mod 251).

Definition toy_hmac (buf secret : Buffer.t) : Buffer.t :=
  digest_of ((checksum buf + 5 * checksum secret) mod 17).

Definition hashes : HashPrimitives := {|
  sha256 := toy_sha256;
  HmacSHA256 := toy_hmac
|}.

(** Sample inputs. *)
Definition digest (z : Z) : Buffer.t := BigInteger.toBuffer z 32.

Definition publicKey (d : Z) : point := multiply P3_4 d.
End Toy.

(** ** Vocabulary of the statements *)

Section Vocabulary.
Context {hash_primitives : HashPrimitives} {Point : Type}.

(** One round of re-keying in step H3: the body of the [while] loop. *)
Definition rekey (k v : Buffer.t) : Buffer.t * Buffer.t :=
  let k := HmacSHA256 (Buffer.concat [v; Buffer.from [0]]) k in
  let v := HmacSHA256 v k in
  let v := HmacSHA256 v k in
  (k, v).

(** The key and the value with which [deterministicGenerateK] enters its
    loop (steps B to H2b), for the digest that passed the length check. *)
Definition loop_entry (hash : Buffer.t) (d : Z) : Buffer.t * Buffer.t :=
  let x := BigInteger.toBuffer d 32 in
  let v := Buffer.fill (Buffer.alloc 32) 1 in
  let k := Buffer.fill (Buffer.alloc 32) 0 in
  let k := HmacSHA256 (Buffer.concat [v; Buffer.from [0]; x; hash]) k in
  let v := HmacSHA256 v k in
  let k := HmacSHA256 (Buffer.concat [v; Buffer.from [1]; x; hash]) k in
  let v := HmacSHA256 v k in
  let v := HmacSHA256 v k in
  (k, v).

(** The key and the value after [j] rounds of re-keying. *)
Fixpoint rekeyed (j : nat) (k v : Buffer.t) : Buffer.t * Buffer.t :=
  match j with
  | O => (k, v)
  | S j' => rekeyed j' (fst (rekey k v)) (snd (rekey k v))
  end.

(** The [j]-th candidate scalar of the loop. *)
Definition candidate (j : nat) (k v : Buffer.t) : Z :=
  BigInteger.fromBuffer (snd (rekeyed j k v)).

(** The callback gives the verdict [verdict] on [T] whatever the captured
    variables hold. *)
Definition answers {Env : Type} (checkSig : callback Env) (T : Z) (verdict : bool) : Prop :=
  forall env, exists env', checkSig T env = Normal (verdict, env').

(** The loop test sends the candidate [T] back for another round. *)
Definition rejected {Env : Type} (n : Z) (checkSig : callback Env) (T : Z) : Prop :=
  ~ 0 < T < n \/ answers checkSig T false.

Context (curve : ecurve.Curve Point) (e : Z) (signature : ECSignature.t) (Q : Point).

(** [recovers i matching]: for the id [i], [recoverPubKey] returns a point,
    and its comparison with [Q] gives [matching]. *)
Definition recovers (i : Z) (matching : bool) : Prop :=
  exists Qprime, recoverPubKey curve e signature i = Normal Qprime
                 /\ ecurve.equals curve Qprime Q = matching.

(** Every id from [from] up to [upto] (excluded) was recovered and did not
    give [Q]. *)
Definition no_match_between (from upto : Z) : Prop :=
  forall m, from <= m < upto -> recovers m false.
End Vocabulary.



(** ** Vocabulary of the further properties *)

(** Modelled from the spec: the reconstructed point is "the curve point with
    X-coordinate x" (section 4.3). *)
Record AbscissaLaws {Point : Type} (curve : ecurve.Curve Point) : Prop := {
  pointFromX_abscissa : forall isOdd x R,
    ecurve.pointFromX curve isOdd x = Some R -> ecurve.affineX curve R = Some x
}.

(** A callback that answers with [accept] and records, most recent first,
    the scalars it was called on. *)
Definition observing (accept : Z -> bool) : callback (list Z) :=
  fun T seen => Normal (accept T, T :: seen).

Section Textbook.
Context {Point : Type} (curve : ecurve.Curve Point).

(** The scalar [k] is a usable ECDSA nonce for the message integer [e] and
    the key [d]: it lies in [[1, n-1]] and gives non-zero [r] and [s]. *)
Definition usable_nonce (e d k : Z) : bool :=
  (0 <? k) && (k <? ecurve.n curve)
  && match ecurve.affineX curve (ecurve.multiply curve (ecurve.G curve) k) with
     | Some x =>
         let r := x mod ecurve.n curve in
         negb (r =? 0)
         && negb ((Z.invmod k (ecurve.n curve) * (e + d * r)) mod ecurve.n curve =? 0)
     | None => false
     end.

(** The low-S ECDSA signature of [e] under the key [d] with the nonce [k]. *)
Definition signature_with_nonce (e d k : Z) : option ECSignature.t :=
  match ecurve.affineX curve (ecurve.multiply curve (ecurve.G curve) k) with
  | Some x =>
      let r := x mod ecurve.n curve in
      let s := (Z.invmod k (ecurve.n curve) * (e + d * r)) mod ecurve.n curve in
      Some (ECSignature.new r (if s >? ecurve.n curve / 2 then ecurve.n curve - s else s))
  | None => None
  end.
End Textbook.

(** * Properties *)

(** ** Big integers *)

Lemma mod_eq (a m : Z) : 0 < m -> BigInteger.mod_ a m = a mod m.
Proof.
  intros Hm. unfold BigInteger.mod_.
  rewrite Z.rem_mod_nonneg by lia.
  destruct (Z.ltb_spec a 0) as [Hneg | Hpos]; cbn [andb].
  - replace (Z.abs a) with (- a) by lia.
    destruct (Z.ltb_spec 0 ((- a) mod m)) as [Hr | Hr].
    + rewrite (Z_mod_nz_opp_full a m); [lia | ].
      intros H0. rewrite (Z_mod_zero_opp_full a m H0) in Hr. lia.
    + assert (H0 : (- a) mod m = 0) by (pose proof (Z.mod_pos_bound (- a) m Hm); lia).
      rewrite H0. symmetry.
      rewrite <- (Z.opp_involutive a).
      apply Z_mod_zero_opp_full. exact H0.
  - replace (Z.abs a) with a by lia. reflexivity.
Qed.

Lemma mod_range (a m : Z) : 0 < m -> 0 <= BigInteger.mod_ a m < m.
Proof. intros Hm. rewrite mod_eq by exact Hm. apply Z.mod_pos_bound. exact Hm. Qed.

Lemma out_of_range_test (a m : Z) :
  (BigInteger.signum a <=? 0) || (BigInteger.compareTo a m >=? 0) = negb ((0 <? a) && (a <? m)).
Proof.
  unfold BigInteger.signum, BigInteger.compareTo.
  destruct (Z.leb_spec (Z.sgn a) 0), (Z.geb_spec (Z.sgn (a - m)) 0),
    (Z.ltb_spec 0 a), (Z.ltb_spec a m); cbn; try reflexivity; lia.
Qed.

Lemma in_range_test (a m : Z) :
  (BigInteger.signum a >? 0) && (BigInteger.compareTo a m <? 0) = (0 <? a) && (a <? m).
Proof.
  unfold BigInteger.signum, BigInteger.compareTo.
  destruct (Z.gtb_spec (Z.sgn a) 0), (Z.ltb_spec (Z.sgn (a - m)) 0),
    (Z.ltb_spec 0 a), (Z.ltb_spec a m); cbn; try reflexivity; lia.
Qed.

Lemma modInverse_nonzero (a m : Z) :
  a <> 0 -> BigInteger.modInverse a m = Normal (Z.invmod a m).
Proof.
  intros Ha. unfold BigInteger.modInverse, BigInteger.signum.
  destruct (Z.eqb_spec (Z.sgn a) 0) as [H | H]; [lia | reflexivity].
Qed.




(** *** The fixed-width big-endian encoding *)

Lemma Z_of_byte_of_Z (z : Z) : Buffer.Z_of_byte (Buffer.byte_of_Z z) = z mod 256.
Proof.
  unfold Buffer.Z_of_byte, Buffer.byte_of_Z.
  pose proof (Z.mod_pos_bound z 256 ltac:(lia)) as Hb.
  destruct (Byte.of_N (Z.to_N (z mod 256))) as [b | ] eqn:Hof.
  - apply Byte.to_of_N in Hof. rewrite Hof. lia.
  - apply Byte.of_N_None_iff in Hof. lia.
Qed.

Lemma fold_decode (buf : Buffer.t) :
  forall acc,
    fold_left (fun acc b => acc * 256 + Buffer.Z_of_byte b) buf acc
    = acc * 256 ^ Z.of_nat (List.length buf) + BigInteger.fromBuffer buf.
Proof.
  unfold BigInteger.fromBuffer.
  induction buf as [ | b buf IH]; intros acc; cbn [fold_left List.length].
  - cbn. lia.
  - rewrite IH, (IH (0 * 256 + Buffer.Z_of_byte b)).
    rewrite Nat2Z.inj_succ, Z.pow_succ_r by lia. ring.
Qed.

Lemma fromBuffer_cons (b : byte) (buf : Buffer.t) :
  BigInteger.fromBuffer (b :: buf)
  = Buffer.Z_of_byte b * 256 ^ Z.of_nat (List.length buf) + BigInteger.fromBuffer buf.
Proof.
  unfold BigInteger.fromBuffer at 1. cbn [fold_left]. rewrite fold_decode. ring.
Qed.

Lemma fromBuffer_zeros (count : nat) (buf : Buffer.t) :
  BigInteger.fromBuffer (repeat x00 count ++ buf) = BigInteger.fromBuffer buf.
Proof.
  induction count as [ | count IH]; [reflexivity | ].
  cbn [repeat app]. rewrite fromBuffer_cons, IH. cbn. lia.
Qed.

Lemma octets_value (fuel : nat) :
  forall z acc,
    0 <= z < 256 ^ Z.of_nat fuel ->
    BigInteger.fromBuffer (BigInteger.octets fuel z acc)
    = z * 256 ^ Z.of_nat (List.length acc) + BigInteger.fromBuffer acc.
Proof.
  induction fuel as [ | fuel IH]; intros z acc Hz; cbn [BigInteger.octets].
  - cbn in Hz. replace z with 0 by lia. lia.
  - destruct (Z.leb_spec z 0) as [Hle | Hgt]; [replace z with 0 by lia; lia | ].
    rewrite Nat2Z.inj_succ, Z.pow_succ_r in Hz by lia.
    rewrite IH by (split; [apply Z.div_pos; lia | apply Z.div_lt_upper_bound; lia]).
    rewrite fromBuffer_cons, Z_of_byte_of_Z. cbn [List.length].
    rewrite Nat2Z.inj_succ, Z.pow_succ_r by lia.
    pose proof (Z.div_mod z 256 ltac:(lia)) as Hdiv.
    set (q := z / 256) in *. set (m := z mod 256) in *.
    rewrite Hdiv. ring.
Qed.

Lemma octets_length (fuel : nat) :
  forall (width : nat) z acc,
    0 <= z < 256 ^ Z.of_nat width ->
    (List.length (BigInteger.octets fuel z acc) <= List.length acc + width)%nat.
Proof.
  induction fuel as [ | fuel IH]; intros width z acc Hz; cbn [BigInteger.octets]; [lia | ].
  destruct (Z.leb_spec z 0) as [Hle | Hgt]; [lia | ].
  destruct width as [ | width]; [cbn in Hz; lia | ].
  rewrite Nat2Z.inj_succ, Z.pow_succ_r in Hz by lia.
  specialize (IH width (z / 256) (Buffer.byte_of_Z z :: acc)).
  cbn [List.length] in IH.
  assert (Hq : 0 <= z / 256 < 256 ^ Z.of_nat width)
    by (split; [apply Z.div_pos; lia | apply Z.div_lt_upper_bound; lia]).
  specialize (IH Hq). lia.
Qed.

Lemma log2_fuel (z : Z) : 0 <= z -> z < 256 ^ Z.of_nat (S (Z.to_nat (Z.log2 z))).
Proof.
  intros Hz. destruct (Z.eq_dec z 0) as [-> | Hnz]; [reflexivity | ].
  pose proof (Z.log2_nonneg z) as Hlog.
  pose proof (Z.log2_spec z ltac:(lia)) as [_ Hup].
  rewrite Nat2Z.inj_succ, Z2Nat.id by lia.
  eapply Z.lt_le_trans; [exact Hup | ].
  apply Z.pow_le_mono_l. lia.
Qed.

(** [toBuffer] of a non-negative integer decodes to that integer. *)
Lemma fromBuffer_toBuffer (z : Z) (size : nat) :
  0 <= z -> BigInteger.fromBuffer (BigInteger.toBuffer z size) = z.
Proof.
  intros Hz. unfold BigInteger.toBuffer, BigInteger.toByteArrayUnsigned.
  rewrite fromBuffer_zeros, octets_value by (split; [exact Hz | apply log2_fuel; exact Hz]).
  cbn. lia.
Qed.

(** [toBuffer] of an integer that fits has exactly the asked size. *)
Lemma toBuffer_length (z : Z) (size : nat) :
  0 <= z < 256 ^ Z.of_nat size ->
  Buffer.length (BigInteger.toBuffer z size) = Z.of_nat size.
Proof.
  intros Hz. unfold Buffer.length, BigInteger.toBuffer, BigInteger.toByteArrayUnsigned.
  pose proof (octets_length (S (Z.to_nat (Z.log2 z))) size z [] Hz) as Hlen.
  cbn [List.length] in Hlen.
  rewrite length_app, repeat_length. lia.
Qed.


(** ** The group of a lawful curve *)

Section CurveFacts.
Context {Point : Type} (curve : ecurve.Curve Point) (laws : CurveLaws curve).

Local Abbreviation n := (ecurve.n curve).
Local Abbreviation G := (ecurve.G curve).
Local Abbreviation infinity := (ecurve.infinity curve).
Local Abbreviation add := (ecurve.add curve).
Local Abbreviation negate := (ecurve.negate curve).
Local Abbreviation multiply := (ecurve.multiply curve).

Lemma order_ge_2 : 2 <= n.
Proof. apply Z.prime_ge_2. exact (order_prime curve laws). Qed.

Lemma add_infinity_r (P : Point) : add P infinity = P.
Proof. rewrite (add_comm curve laws). apply (add_infinity curve laws). Qed.

Lemma multiply_one (P : Point) : multiply P 1 = P.
Proof.
  change 1 with (0 + 1).
  rewrite (multiply_step curve laws) by lia.
  rewrite (multiply_zero curve laws). apply add_infinity_r.
Qed.

Lemma multiply_add (P : Point) (j k : Z) :
  0 <= j -> 0 <= k -> multiply P (j + k) = add (multiply P j) (multiply P k).
Proof.
  intros Hj Hk. revert j Hj. apply natlike_ind.
  - rewrite (multiply_zero curve laws), (add_infinity curve laws). reflexivity.
  - intros j Hj IH.
    replace (Z.succ j + k) with ((j + k) + 1) by lia.
    replace (Z.succ j) with (j + 1) by lia.
    rewrite !(multiply_step curve laws) by lia.
    rewrite IH. apply (add_assoc curve laws).
Qed.

Lemma multiply_infinity (k : Z) : 0 <= k -> multiply infinity k = infinity.
Proof.
  revert k. apply natlike_ind.
  - apply (multiply_zero curve laws).
  - intros k Hk IH. replace (Z.succ k) with (k + 1) by lia.
    rewrite (multiply_step curve laws) by lia.
    rewrite IH. apply (add_infinity curve laws).
Qed.

Lemma multiply_multiply (P : Point) (j k : Z) :
  0 <= j -> 0 <= k -> multiply (multiply P j) k = multiply P (j * k).
Proof.
  intros Hj. revert k. apply natlike_ind.
  - rewrite Z.mul_0_r, !(multiply_zero curve laws). reflexivity.
  - intros k Hk IH. replace (Z.succ k) with (k + 1) by lia.
    rewrite (multiply_step curve laws) by lia.
    rewrite IH.
    replace (j * (k + 1)) with (j + j * k) by ring.
    rewrite multiply_add by nia. reflexivity.
Qed.

Lemma multiply_G_mod (k : Z) : 0 <= k -> multiply G (k mod n) = multiply G k.
Proof.
  intros Hk. pose proof order_ge_2 as Hn.
  rewrite (Z.div_mod k n) at 2 by lia.
  assert (Hq : 0 <= k / n) by (apply Z.div_pos; lia).
  pose proof (Z.mod_pos_bound k n ltac:(lia)) as Hr.
  rewrite multiply_add by nia.
  rewrite <- multiply_multiply by lia.
  rewrite (G_order curve laws), multiply_infinity by lia.
  rewrite (add_infinity curve laws). reflexivity.
Qed.

Lemma multiply_G_finite (k : Z) : 0 < k < n -> multiply G k <> infinity.
Proof.
  intros Hk Hinf.
  apply (G_finite curve laws).
  pose proof (Z.mod_pos_bound (fst (fst (Z.extgcd (k mod n) n))) n ltac:(lia)) as Hki.
  fold (Z.invmod k n) in Hki.
  assert (H1 : (Z.invmod k n * k) mod n = 1).
  { apply Z.invmod_prime; [exact (order_prime curve laws) | ].
    rewrite Z.mod_small by lia. lia. }
  rewrite <- (multiply_one G), <- H1.
  rewrite multiply_G_mod by nia.
  rewrite Z.mul_comm, <- multiply_multiply by lia.
  rewrite Hinf. apply multiply_infinity. lia.
Qed.

Lemma negate_unique (P Q : Point) : add P Q = infinity -> Q = negate P.
Proof.
  intros H.
  rewrite <- (add_infinity curve laws Q).
  rewrite <- (add_negate curve laws P).
  rewrite (add_comm curve laws P), <- (add_assoc curve laws), H.
  apply add_infinity_r.
Qed.

Lemma multiply_G_opp (k : Z) : 0 < k < n -> multiply G (n - k) = negate (multiply G k).
Proof.
  intros Hk. apply negate_unique.
  rewrite <- multiply_add by lia.
  replace (k + (n - k)) with n by lia.
  apply (G_order curve laws).
Qed.


Lemma isInfinity_false (P : Point) :
  ecurve.isInfinity curve P = false <-> P <> infinity.
Proof.
  pose proof (isInfinity_spec curve laws P) as H.
  destruct (ecurve.isInfinity curve P); split; intros H1.
  - discriminate.
  - exfalso. apply H1, H. reflexivity.
  - intros H2. apply H in H2. discriminate.
  - reflexivity.
Qed.

Lemma affineX_finite (P : Point) :
  P <> infinity -> exists x, ecurve.affineX curve P = Some x.
Proof.
  intros HP. destruct (ecurve.affineX curve P) as [x | ] eqn:Hx.
  - exists x. reflexivity.
  - exfalso. apply HP, (affineX_defined curve laws). exact Hx.
Qed.
End CurveFacts.

(** ** The nonce loop and the callback of [sign] *)

Section NonceFacts.
Context {hash_primitives : HashPrimitives} {Point : Type} (curve : ecurve.Curve Point).

Local Abbreviation n := (ecurve.n curve).
Local Abbreviation G := (ecurve.G curve).

Lemma generateK_loop_unfold {Env : Type} (fuel : nat) (checkSig : callback Env)
    (k v : Buffer.t) (T : Z) (env : Env) :
  generateK_loop (S fuel) curve checkSig k v T env =
  let next env' :=
    generateK_loop fuel curve checkSig (fst (rekey k v)) (snd (rekey k v))
      (BigInteger.fromBuffer (snd (rekey k v))) env' in
  if (0 <? T) && (T <? n) then
    match checkSig T env with
    | Normal (true, env') => Normal (T, env')
    | Normal (false, env') => next env'
    | Throw e => Throw e
    | OutOfFuel => OutOfFuel
    end
  else next env.
Proof.
  cbn [generateK_loop]. rewrite out_of_range_test.
  destruct ((0 <? T) && (T <? n)); cbn [negb]; [ | reflexivity].
  destruct (checkSig T env) as [[[ | ] env'] | e | ]; reflexivity.
Qed.

Lemma generateK_loop_accepts {Env : Type} (checkSig : callback Env) (fuel : nat) :
  forall (k v : Buffer.t) (T : Z) (env : Env) (T' : Z) (env' : Env),
    generateK_loop fuel curve checkSig k v T env = Normal (T', env') ->
    0 < T' < n /\ exists env0, checkSig T' env0 = Normal (true, env').
Proof.
  induction fuel as [ | fuel IH]; intros k v T env T' env' H.
  - discriminate H.
  - rewrite generateK_loop_unfold in H. cbv zeta in H.
    destruct ((0 <? T) && (T <? n)) eqn:Hrange.
    + destruct (checkSig T env) as [[[ | ] env1] | e | ] eqn:Hcb; try discriminate H.
      * injection H as <- <-. split; [lia | ]. exists env. exact Hcb.
      * apply IH in H. exact H.
    + apply IH in H. exact H.
Qed.


Lemma deterministicGenerateK_accepts {Env : Type} (checkSig : callback Env) (fuel : nat)
    (hash : Buffer.t) (d : Z) (nonce : option N) (env : Env) (T : Z) (env' : Env) :
  deterministicGenerateK fuel curve hash d checkSig nonce env = Normal (T, env') ->
  0 < T < n /\ exists env0, checkSig T env0 = Normal (true, env').
Proof.
  unfold deterministicGenerateK, assert. intros H.
  match type of H with
  | bind (if ?c then _ else _) _ = _ => destruct c; cbn [bind] in H; [ | discriminate H]
  end.
  apply generateK_loop_accepts in H. exact H.
Qed.

Lemma compareTo_gt (a b : Z) : (BigInteger.compareTo a b >? 0) = (a >? b).
Proof.
  unfold BigInteger.compareTo.
  destruct (Z.gtb_spec (Z.sgn (a - b)) 0), (Z.gtb_spec a b); try reflexivity; lia.
Qed.

Lemma signum_zero (a : Z) : (BigInteger.signum a =? 0) = (a =? 0).
Proof.
  unfold BigInteger.signum.
  destruct (Z.eqb_spec (Z.sgn a) 0), (Z.eqb_spec a 0); try reflexivity; lia.
Qed.

(** What the callback of [sign] has computed and stored when it answers
    [true]. *)
Lemma sign_callback_accepts (e d k : Z) (vars vars' : sign_vars) :
  0 < k < n ->
  sign_callback curve e d k vars = Normal (true, vars') ->
  ecurve.isInfinity curve (ecurve.multiply curve G k) = false
  /\ exists x,
       ecurve.affineX curve (ecurve.multiply curve G k) = Some x
       /\ x mod n <> 0
       /\ (Z.invmod k n * (e + d * (x mod n))) mod n <> 0
       /\ vars' = {| var_r := Some (x mod n);
                     var_s := Some ((Z.invmod k n * (e + d * (x mod n))) mod n) |}.
Proof.
  intros Hk H. unfold sign_callback in H.
  destruct (ecurve.isInfinity curve (ecurve.multiply curve G k)); [discriminate H | ].
  split; [reflexivity | ].
  destruct (ecurve.affineX curve (ecurve.multiply curve G k)) as [x | ]; [ | discriminate H].
  exists x. split; [reflexivity | ].
  rewrite !signum_zero, !mod_eq in H by lia.
  rewrite modInverse_nonzero in H by lia. cbn [bind] in H.
  rewrite !signum_zero, !mod_eq in H by lia.
  destruct (Z.eqb_spec (x mod n) 0) as [ | Hr]; [discriminate H | ].
  destruct (Z.eqb_spec ((Z.invmod k n * (e + d * (x mod n))) mod n) 0) as [ | Hs];
    [discriminate H | ].
  injection H as <-. repeat split; assumption.
Qed.

(** The shape of every signature returned by [sign]. *)
Lemma sign_inversion (fuel : nat) (hash : Buffer.t) (d : Z) (nonce : option N)
    (signature : ECSignature.t) :
  sign fuel curve hash d nonce = Normal signature ->
  exists k x,
    0 < k < n
    /\ ecurve.isInfinity curve (ecurve.multiply curve G k) = false
    /\ ecurve.affineX curve (ecurve.multiply curve G k) = Some x
    /\ x mod n <> 0
    /\ (Z.invmod k n * (BigInteger.fromBuffer hash + d * (x mod n))) mod n <> 0
    /\ signature =
       ECSignature.new (x mod n)
         (let s0 := (Z.invmod k n * (BigInteger.fromBuffer hash + d * (x mod n))) mod n in
          if s0 >? Z.shiftr n 1 then n - s0 else s0).
Proof.
  unfold sign. intros H.
  destruct (deterministicGenerateK fuel curve hash d
              (sign_callback curve (BigInteger.fromBuffer hash) d) nonce
              {| var_r := None; var_s := None |}) as [[k vars] | err | ] eqn:HK;
    cbn [bind] in H; try discriminate H.
  apply deterministicGenerateK_accepts in HK. destruct HK as [Hk [vars0 Hcb]].
  apply sign_callback_accepts in Hcb; [ | exact Hk].
  destruct Hcb as [Hinf [x [Hx [Hr [Hs ->]]]]].
  cbn [var_r var_s] in H. rewrite compareTo_gt in H.
  unfold BigInteger.shiftRight in H.
  exists k, x. repeat split; try assumption; try lia.
  injection H as <-. reflexivity.
Qed.
End NonceFacts.

(** ** Signing followed by verification *)

Section RoundTrip.
Context {hash_primitives : HashPrimitives} {Point : Type}.
Context (curve : ecurve.Curve Point) (laws : CurveLaws curve).

Local Abbreviation n := (ecurve.n curve).
Local Abbreviation G := (ecurve.G curve).


End RoundTrip.

(** ** The small instance satisfies the contracts *)

Lemma prime_13 : Z.prime 13.
Proof.
  split; [lia | ].
  intros m Hm [q Hq].
  assert (Hcases : m = 2 \/ m = 3 \/ m = 4 \/ m = 5 \/ m = 6 \/ m = 7 \/ m = 8
                   \/ m = 9 \/ m = 10 \/ m = 11 \/ m = 12) by lia.
  repeat (destruct Hcases as [-> | Hcases]; [lia | ]). subst m. lia.
Qed.

Lemma toy_points_on_curve (P : Toy.point) : Toy.on_curve (Toy.coords P) = true.
Proof. destruct P; vm_compute; reflexivity. Qed.

Lemma toy_of_coords_coords (P : Toy.point) : Toy.of_coords (Toy.coords P) = P.
Proof. destruct P; vm_compute; reflexivity. Qed.

(** The enumerated points are closed under the chord-and-tangent rule. *)
Lemma toy_add_closed (P Q : Toy.point) :
  Toy.coords (Toy.add P Q) = Toy.affine_add (Toy.coords P) (Toy.coords Q).
Proof. destruct P, Q; vm_compute; reflexivity. Qed.

Lemma toy_curve_laws : CurveLaws Toy.curve.
Proof.
  constructor; cbn.
  - exact prime_13.
  - intros P Q R. destruct P, Q, R; vm_compute; reflexivity.
  - intros P Q. destruct P, Q; vm_compute; reflexivity.
  - intros P. destruct P; vm_compute; reflexivity.
  - intros P. destruct P; vm_compute; reflexivity.
  - intros P. destruct P; cbn; split; intros H; try reflexivity; discriminate H.
  - intros P Q. destruct P, Q; split; intros H; try reflexivity; discriminate H.
  - intros P. reflexivity.
  - intros P k Hk. unfold Toy.multiply.
    destruct k as [ | q | q]; [reflexivity | | lia].
    replace (Z.pos q + 1) with (Z.pos (Pos.succ q)) by lia.
    apply Pos.iter_succ.
  - intros P j Q k _ _. reflexivity.
  - discriminate.
  - vm_compute. reflexivity.
  - intros P. destruct P; cbn; split; intros H; try reflexivity; discriminate H.
  - intros P. destruct P; vm_compute; reflexivity.
  - intros Q H. destruct Q; [discriminate H | discriminate ..].
Qed.

Lemma toy_hash_laws : HashLaws Toy.hashes.
Proof.
  constructor. intros buf. cbn. unfold Toy.toy_sha256, Toy.digest_of.
  apply (toBuffer_length _ 32).
  pose proof (Z.mod_pos_bound (Toy.checksum buf) 251 ltac:(lia)) as Hb.
  split; [lia | ]. eapply Z.lt_trans; [apply Hb | reflexivity].
Qed.

(** ** Claims about [sign] and [verify] *)



(** C3. Every signature returned by [sign] is canonical: [r] and [s] lie in
    [[1, n-1]] and [s] is at most [n/2]. *)
Theorem sign_canonical {hash_primitives : HashPrimitives} {Point : Type}
    (curve : ecurve.Curve Point) (fuel : nat) (hash : Buffer.t) (d : Z)
    (nonce : option N) (signature : ECSignature.t) :
  sign fuel curve hash d nonce = Normal signature ->
  1 <= ECSignature.r signature <= ecurve.n curve - 1
  /\ 1 <= ECSignature.s signature <= ecurve.n curve - 1
  /\ ECSignature.s signature <= ecurve.n curve / 2.
Proof.
  intros Hsign.
  destruct (sign_inversion curve fuel hash d nonce signature Hsign)
    as [k [x [Hk [_ [_ [Hr [Hs0 ->]]]]]]].
  cbn [ECSignature.r ECSignature.s]. cbv zeta.
  set (n := ecurve.n curve) in *.
  set (s0 := (Z.invmod k n * (BigInteger.fromBuffer hash + d * (x mod n))) mod n) in *.
  pose proof (Z.mod_pos_bound x n ltac:(lia)) as Hrb.
  pose proof (Z.mod_pos_bound (Z.invmod k n * (BigInteger.fromBuffer hash + d * (x mod n))) n
                ltac:(lia)) as Hsb.
  fold s0 in Hsb.
  rewrite (Z.shiftr_div_pow2 n 1) by lia. change (2 ^ 1) with 2.
  pose proof (Z.div_mod n 2 ltac:(lia)) as Hdiv.
  pose proof (Z.mod_pos_bound n 2 ltac:(lia)) as Hmod.
  destruct (Z.gtb_spec s0 (n / 2)); lia.
Qed.

Lemma sign_canonical_witness :
  sign (hash_primitives := Toy.hashes) 8 Toy.curve (Toy.digest 2) 1 None
  = Normal (ECSignature.new 6 6)
  /\ 1 <= 6 <= 13 - 1 /\ 1 <= 6 <= 13 - 1 /\ 6 <= 13 / 2.
Proof.
  split; [vm_compute; reflexivity | ].
  apply (sign_canonical (hash_primitives := Toy.hashes)
           Toy.curve 8 (Toy.digest 2) 1 None (ECSignature.new 6 6)).
  vm_compute. reflexivity.
Defined.



(** ** Claims about [deterministicGenerateK] *)

Section NonceGenerator.
Context {hash_primitives : HashPrimitives} {Point : Type} (curve : ecurve.Curve Point).

Lemma concat_pair (v : Buffer.t) : Buffer.concat [v; Buffer.from [0]] = v ++ [x00].
Proof. unfold Buffer.concat. cbn. reflexivity. Qed.

Lemma concat_seed (v x hash : Buffer.t) (sep : Z) :
  Buffer.concat [v; Buffer.from [sep]; x; hash] = v ++ [Buffer.byte_of_Z sep] ++ x ++ hash.
Proof. unfold Buffer.concat. cbn. rewrite app_nil_r. reflexivity. Qed.

Lemma concat_nonce (hash : Buffer.t) (size : N) :
  Buffer.concat [hash; Buffer.alloc size] = hash ++ repeat x00 (N.to_nat size).
Proof. unfold Buffer.concat, Buffer.alloc. cbn. rewrite app_nil_r. reflexivity. Qed.

(** The loop of the code, entered with [V] already refreshed, is the loop of
    the specification, which refreshes [V] at its head. *)
Lemma generateK_loop_search (accept : Z -> bool) (fuel : nat) :
  forall K V : Buffer.t,
    generateK_loop fuel curve (pure_callback accept) K (HmacSHA256 V K)
      (BigInteger.fromBuffer (HmacSHA256 V K)) tt
    = (T <- Rfc6979.search fuel (ecurve.n curve) accept K V ;; Normal (T, tt))%js.
Proof.
  induction fuel as [ | fuel IH]; intros K V; [reflexivity | ].
  rewrite generateK_loop_unfold. cbn [Rfc6979.search]. cbv zeta.
  unfold Rfc6979.HMAC_SHA256, rekey. cbn [fst snd]. rewrite concat_pair.
  set (V' := HmacSHA256 V K). set (T := BigInteger.fromBuffer V').
  replace (1 <=? T) with (0 <? T)
    by (destruct (Z.ltb_spec 0 T), (Z.leb_spec 1 T); try reflexivity; lia).
  unfold pure_callback at 1.
  destruct ((0 <? T) && (T <? ecurve.n curve)); cbn [andb].
  - destruct (accept T); [reflexivity | ]. apply IH.
  - apply IH.
Qed.

(** C4. On a 32-byte digest [deterministicGenerateK] is the RFC 6979
    derivation of the specification, and a scalar it returns lies in
    [[1, n-1]] and is accepted by the predicate. *)
Theorem deterministicGenerateK_rfc6979 (fuel : nat) (digest : Buffer.t) (d : Z)
    (accept : Z -> bool) (nonce : option N) :
  HashLaws hash_primitives ->
  Buffer.length digest = 32 ->
  deterministicGenerateK fuel curve digest d (pure_callback accept) nonce tt
  = (T <- Rfc6979.generate fuel (ecurve.n curve) digest d accept nonce ;; Normal (T, tt))%js
  /\ forall T : Z,
       deterministicGenerateK fuel curve digest d (pure_callback accept) nonce tt
       = Normal (T, tt) ->
       1 <= T <= ecurve.n curve - 1 /\ accept T = true.
Proof.
  intros hash_laws Hlen. split.
  - unfold deterministicGenerateK, Rfc6979.generate, Rfc6979.HMAC_SHA256,
      Rfc6979.d_bytes, Rfc6979.zero_bytes.
    rewrite !concat_seed, concat_nonce.
    change (Buffer.fill (Buffer.alloc 32) 1) with (repeat x01 32).
    change (Buffer.fill (Buffer.alloc 32) 0) with (repeat x00 32).
    change (Buffer.byte_of_Z 0) with x00. change (Buffer.byte_of_Z 1) with x01.
    destruct nonce as [[ | count] | ]; cbn [truthy nonce_size N.eqb negb].
    + rewrite Hlen. cbn [Z.eqb Pos.eqb assert bind]. apply generateK_loop_search.
    + rewrite (sha256_length _ hash_laws). cbn [Z.eqb Pos.eqb assert bind].
      apply generateK_loop_search.
    + rewrite Hlen. cbn [Z.eqb Pos.eqb assert bind]. apply generateK_loop_search.
  - intros T H. apply deterministicGenerateK_accepts in H.
    destruct H as [HT [env0 Hacc]]. unfold pure_callback in Hacc.
    injection Hacc as Hacc. split; [lia | exact Hacc].
Qed.

End NonceGenerator.

Lemma deterministicGenerateK_rfc6979_witness :
  Buffer.length (Toy.digest 5) = 32
  /\ deterministicGenerateK (hash_primitives := Toy.hashes) 8 Toy.curve (Toy.digest 5) 7
       (pure_callback Z.odd) (Some 1%N) tt = Normal (11, tt)
  /\ Rfc6979.generate (hash_primitives := Toy.hashes) 8 (ecurve.n Toy.curve) (Toy.digest 5) 7
       Z.odd (Some 1%N) = Normal 11
  /\ 1 <= 11 <= ecurve.n Toy.curve - 1 /\ Z.odd 11 = true.
Proof.
  destruct (deterministicGenerateK_rfc6979 (hash_primitives := Toy.hashes) Toy.curve
              8 (Toy.digest 5) 7 Z.odd (Some 1%N) toy_hash_laws eq_refl) as [Hrefines Hpost].
  assert (Hrun : deterministicGenerateK (hash_primitives := Toy.hashes) 8 Toy.curve
                   (Toy.digest 5) 7 (pure_callback Z.odd) (Some 1%N) tt = Normal (11, tt))
    by (vm_compute; reflexivity).
  split; [reflexivity | ]. split; [exact Hrun | ].
  split; [ | exact (Hpost 11 Hrun)].
  rewrite Hrun in Hrefines.
  destruct (Rfc6979.generate 8 (ecurve.n Toy.curve) (Toy.digest 5) 7 Z.odd (Some 1%N))
    as [T | err | ]; cbn [bind] in Hrefines; try discriminate Hrefines.
  injection Hrefines as ->. reflexivity.
Defined.


(** ** The digest length check *)

Section DigestLength.
Context {hash_primitives : HashPrimitives} {Point : Type} (curve : ecurve.Curve Point).

(** The callback of [sign] throws nothing that counts as input validation,
    and neither does the loop around it. *)
Lemma sign_callback_throws (e d k : Z) (vars : sign_vars) (err : Error) :
  sign_callback curve e d k vars = Throw err -> kind err = None.
Proof.
  unfold sign_callback, BigInteger.modInverse. intros H.
  destruct (ecurve.isInfinity curve _); [discriminate H | ].
  destruct (ecurve.affineX curve _); [ | injection H as <-; reflexivity].
  destruct (BigInteger.signum (BigInteger.mod_ _ _) =? 0); [discriminate H | ].
  destruct (BigInteger.signum k =? 0); cbn [bind] in H.
  - injection H as <-. reflexivity.
  - destruct (BigInteger.signum _ =? 0); discriminate H.
Qed.

Lemma generateK_loop_throws {Env : Type} (checkSig : callback Env) (fuel : nat) :
  (forall T env err, checkSig T env = Throw err -> kind err = None) ->
  forall (k v : Buffer.t) (T : Z) (env : Env) (err : Error),
    generateK_loop fuel curve checkSig k v T env = Throw err -> kind err = None.
Proof.
  intros Hcb. induction fuel as [ | fuel IH]; intros k v T env err H.
  - discriminate H.
  - rewrite generateK_loop_unfold in H. cbv zeta in H.
    destruct ((0 <? T) && (T <? ecurve.n curve)).
    + destruct (checkSig T env) as [[[ | ] env1] | e | ] eqn:Hc; try discriminate H.
      * apply IH in H. exact H.
      * injection H as <-. apply (Hcb _ _ _ Hc).
    + apply IH in H. exact H.
Qed.

(** C8, as the code has it.  Without a (non-zero) nonce, a digest that is
    not 32 bytes long makes [deterministicGenerateK] and [sign] fail at
    once with the input-validation error, whatever the fuel.  With a
    non-zero nonce the check is applied to the SHA-256 output that replaced
    the digest, and [sign] does not fail with an input-validation error. *)
Theorem digest_length_check {Env : Type} (fuel : nat) (hash : Buffer.t) (d : Z)
    (checkSig : callback Env) (nonce : option N) (env : Env) :
  Buffer.length hash <> 32 ->
  (truthy nonce = false ->
     deterministicGenerateK fuel curve hash d checkSig nonce env = Throw HashMustBe256Bit
     /\ sign fuel curve hash d nonce = Throw HashMustBe256Bit
     /\ kind HashMustBe256Bit = Some InputValidation)
  /\ (HashLaws hash_primitives -> truthy nonce = true ->
        forall err, sign fuel curve hash d nonce = Throw err ->
                    kind err <> Some InputValidation).
Proof.
  intros Hlen. split.
  - intros Hnonce.
    assert (H : forall (E : Type) (cb : callback E) (env0 : E),
               deterministicGenerateK fuel curve hash d cb nonce env0
               = Throw HashMustBe256Bit).
    { intros E cb env0. unfold deterministicGenerateK. rewrite Hnonce.
      destruct (Z.eqb_spec (Buffer.length hash) 32) as [Heq | _]; [contradiction | ].
      reflexivity. }
    split; [apply H | ]. split; [ | reflexivity].
    unfold sign. rewrite H. reflexivity.
  - intros hash_laws Hnonce err Hsign. unfold sign in Hsign.
    destruct (deterministicGenerateK _ _ _ _ _ _ _) as [[T vars] | err' | ] eqn:HK;
      cbn [bind] in Hsign; try discriminate Hsign.
    + destruct (var_s vars), (var_r vars); try discriminate Hsign;
        injection Hsign as <-; discriminate.
    + injection Hsign as <-.
      unfold deterministicGenerateK in HK. rewrite Hnonce in HK.
      rewrite (sha256_length _ hash_laws) in HK. cbn [Z.eqb Pos.eqb assert bind] in HK.
      apply generateK_loop_throws in HK; [rewrite HK; discriminate | ].
      intros T env0 err0. apply sign_callback_throws.
Qed.
End DigestLength.

(** C8 as stated fails: a 31-byte digest and the nonce 1 go through. *)
Lemma digest_length_check_counterexample :
  Buffer.length (repeat x00 31) <> 32
  /\ deterministicGenerateK (hash_primitives := Toy.hashes) 8 Toy.curve (repeat x00 31) 7
       (pure_callback Z.odd) (Some 1%N) tt = Normal (9, tt)
  /\ sign (hash_primitives := Toy.hashes) 8 Toy.curve (repeat x00 31) 7 (Some 1%N)
     = Normal (ECSignature.new 5 6).
Proof.
  split; [vm_compute; discriminate | ].
  split; vm_compute; reflexivity.
Qed.

Lemma digest_length_check_witness :
  Buffer.length (repeat x00 31) <> 32
  /\ sign (hash_primitives := Toy.hashes) 8 Toy.curve (repeat x00 31) 7 None
     = Throw HashMustBe256Bit
  /\ sign (hash_primitives := Toy.hashes) 8 Toy.curve (repeat x00 31) 7 (Some 0%N)
     = Throw HashMustBe256Bit.
Proof.
  assert (Hlen : Buffer.length (repeat x00 31) <> 32) by (vm_compute; discriminate).
  split; [exact Hlen | ]. split.
  - apply (digest_length_check (hash_primitives := Toy.hashes) Toy.curve 8 (repeat x00 31) 7
             (pure_callback Z.odd) None tt Hlen). reflexivity.
  - apply (digest_length_check (hash_primitives := Toy.hashes) Toy.curve 8 (repeat x00 31) 7
             (pure_callback Z.odd) (Some 0%N) tt Hlen). reflexivity.
Defined.

(** ** Claims about verification and recovery *)

Section Recovery.
Context {Point : Type} (curve : ecurve.Curve Point).

Local Abbreviation n := (ecurve.n curve).
Local Abbreviation G := (ecurve.G curve).

Lemma land_3_test (i : Z) : (Z.land i 3 =? i) = (0 <=? i) && (i <=? 3).
Proof.
  change 3 with (Z.ones 2) at 1. rewrite Z.land_ones by lia. change (2 ^ 2) with 4.
  pose proof (Z.mod_pos_bound i 4 ltac:(lia)) as Hb.
  destruct (Z.eqb_spec (i mod 4) i) as [Heq | Hne],
    (Z.leb_spec 0 i), (Z.leb_spec i 3); cbn; try reflexivity; try lia.
  exfalso. apply Hne. apply Z.mod_small. lia.
Qed.

Lemma range_test_true (a m : Z) : 0 < a < m -> (0 <? a) && (a <? m) = true.
Proof. intros H. apply andb_true_iff. lia. Qed.

Lemma range_test_false (a m : Z) : ~ 0 < a < m -> (0 <? a) && (a <? m) = false.
Proof. intros H. apply andb_false_iff. lia. Qed.

(** [recoverPubKey] on inputs that pass its three assertions. *)
Lemma recoverPubKey_valid (e : Z) (signature : ECSignature.t) (i : Z) :
  let r := ECSignature.r signature in
  let s := ECSignature.s signature in
  0 <= i <= 3 -> 0 < r < n -> 0 < s < n ->
  recoverPubKey curve e signature i =
  match ecurve.pointFromX curve (Z.testbit i 0) (if Z.testbit i 1 then r + n else r) with
  | None => Throw CurveRejectedPoint
  | Some R =>
      if ecurve.isInfinity curve (ecurve.multiply curve R n) then
        let Q := ecurve.multiply curve
                   (ecurve.multiplyTwo curve R s G ((- e) mod n)) (Z.invmod r n) in
        if ecurve.validate curve Q then Normal Q else Throw CurveRejectedPoint
      else Throw NRNotValidCurvePoint
  end.
Proof.
  intros r s Hi Hr Hs. unfold recoverPubKey. fold r s.
  rewrite land_3_test, !in_range_test, !range_test_true by assumption.
  replace ((0 <=? i) && (i <=? 3)) with true by (symmetry; apply andb_true_iff; lia).
  cbn [assert bind].
  assert (Hbits : negb (Z.land i 1 =? 0) = Z.testbit i 0
                  /\ negb (Z.shiftr i 1 =? 0) = Z.testbit i 1).
  { assert (Hcases : i = 0 \/ i = 1 \/ i = 2 \/ i = 3) by lia.
    destruct Hcases as [-> | [-> | [-> | ->]]]; split; reflexivity. }
  destruct Hbits as [-> ->].
  destruct (ecurve.pointFromX curve _ _) as [R | ]; [ | reflexivity].
  destruct (ecurve.isInfinity curve _); cbn [assert bind]; [ | reflexivity].
  rewrite modInverse_nonzero by lia. cbn [bind].
  rewrite mod_eq by lia.
  destruct (ecurve.validate curve _); reflexivity.
Qed.

(** [recoverPubKey] on inputs that fail one of its three assertions. *)
Lemma recoverPubKey_invalid (e : Z) (signature : ECSignature.t) (i : Z) :
  let r := ECSignature.r signature in
  let s := ECSignature.s signature in
  ~ (0 <= i <= 3 /\ 0 < r < n /\ 0 < s < n) ->
  exists err, recoverPubKey curve e signature i = Throw err
              /\ kind err = Some InputValidation.
Proof.
  intros r s Hbad. unfold recoverPubKey. fold r s.
  rewrite land_3_test, !in_range_test.
  destruct ((0 <=? i) && (i <=? 3)) eqn:Hi; cbn [assert bind];
    [ | exists RecoveryParamMoreThanTwoBits; split; reflexivity].
  destruct ((0 <? r) && (r <? n)) eqn:Hr; cbn [assert bind];
    [ | exists InvalidRValue; split; reflexivity].
  destruct ((0 <? s) && (s <? n)) eqn:Hs; cbn [assert bind];
    [ | exists InvalidSValue; split; reflexivity].
  exfalso. apply Hbad.
  apply andb_true_iff in Hi, Hr, Hs. lia.
Qed.

Lemma recoverPubKey_completes (e : Z) (signature : ECSignature.t) (i : Z) :
  recoverPubKey curve e signature i <> OutOfFuel.
Proof.
  destruct (Z.le_decidable 0 i), (Z.le_decidable i 3),
    (Z.lt_decidable 0 (ECSignature.r signature)),
    (Z.lt_decidable (ECSignature.r signature) n),
    (Z.lt_decidable 0 (ECSignature.s signature)),
    (Z.lt_decidable (ECSignature.s signature) n);
    try (destruct (recoverPubKey_invalid e signature i ltac:(lia)) as [err [-> _]];
         discriminate).
  rewrite recoverPubKey_valid by lia.
  destruct (ecurve.pointFromX curve _ _); [ | discriminate].
  destruct (ecurve.isInfinity curve _); [ | discriminate].
  cbv zeta. destruct (ecurve.validate curve _); discriminate.
Qed.

(** C6. [recoverPubKey] fails with an input-validation error exactly when
    the recovery id is outside [[0, 3]] or [r] or [s] is outside [(0, n)].
    On valid inputs it asks the curve for the point of abscissa [r + n]
    (bit 1 of the id set) or [r], with the parity given by bit 0; it fails
    with the recovery-failure error when [n.R] is not the point at
    infinity; [eNeg = (-e) mod n] lies in [[0, n-1]]; and it returns
    [Q = r^-1 (s.R + eNeg.G)] once the curve has validated [Q], which is
    then not the point at infinity. *)
Theorem recoverPubKey_spec (e : Z) (signature : ECSignature.t) (i : Z) :
  CurveLaws curve ->
  let r := ECSignature.r signature in
  let s := ECSignature.s signature in
  let valid := 0 <= i <= 3 /\ 0 < r < n /\ 0 < s < n in
  ((exists err, recoverPubKey curve e signature i = Throw err
                /\ kind err = Some InputValidation) <-> ~ valid)
  /\ (valid ->
      let x := if Z.testbit i 1 then r + n else r in
      let eNeg := (- e) mod n in
      0 <= eNeg <= n - 1
      /\ BigInteger.mod_ (- e) n = eNeg
      /\ match ecurve.pointFromX curve (Z.testbit i 0) x with
         | None => recoverPubKey curve e signature i = Throw CurveRejectedPoint
         | Some R =>
             if ecurve.isInfinity curve (ecurve.multiply curve R n) then
               let Q := ecurve.multiply curve
                          (ecurve.multiplyTwo curve R s G eNeg) (Z.invmod r n) in
               if ecurve.validate curve Q
               then recoverPubKey curve e signature i = Normal Q
                    /\ Q <> ecurve.infinity curve
               else recoverPubKey curve e signature i = Throw CurveRejectedPoint
             else recoverPubKey curve e signature i = Throw NRNotValidCurvePoint
                  /\ kind NRNotValidCurvePoint = Some RecoveryFailure
         end).
Proof.
  intros laws r s valid. split.
  - split.
    + intros [err [Hthrow Hkind]] [Hi [Hr Hs]].
      rewrite recoverPubKey_valid in Hthrow by assumption. fold r s in Hthrow.
      destruct (ecurve.pointFromX curve _ _) as [R | ];
        [ | injection Hthrow as <-; discriminate Hkind].
      destruct (ecurve.isInfinity curve _);
        [ | injection Hthrow as <-; discriminate Hkind].
      cbv zeta in Hthrow.
      destruct (ecurve.validate curve _);
        [discriminate Hthrow | injection Hthrow as <-; discriminate Hkind].
    + apply recoverPubKey_invalid.
  - intros [Hi [Hr Hs]] x eNeg.
    pose proof (Z.mod_pos_bound (- e) n ltac:(lia)) as HeNeg. fold eNeg in HeNeg.
    split; [lia | ]. split; [apply mod_eq; lia | ].
    rewrite recoverPubKey_valid by assumption. fold r s x eNeg.
    destruct (ecurve.pointFromX curve _ _) as [R | ]; [ | reflexivity].
    destruct (ecurve.isInfinity curve _); [ | split; reflexivity].
    cbv zeta. destruct (ecurve.validate curve _) eqn:Hvalidate; [ | reflexivity].
    split; [reflexivity | ].
    apply (validate_finite curve laws). exact Hvalidate.
Qed.
End Recovery.

Section RecoveryParam.
Context {Point : Type} (curve : ecurve.Curve Point).
Context (e : Z) (signature : ECSignature.t) (Q : Point).

Local Abbreviation recovers := (recovers curve e signature Q).
Local Abbreviation no_match_between := (no_match_between curve e signature Q).

Lemma recovery_search_found (remaining : nat) :
  forall i j,
    i <= j < i + Z.of_nat remaining ->
    no_match_between i j -> recovers j true ->
    recovery_search remaining curve e signature Q i = Normal j.
Proof.
  induction remaining as [ | remaining IH]; intros i j Hj Hbefore Hfound; [lia | ].
  cbn [recovery_search].
  destruct (Z.eq_dec i j) as [-> | Hne].
  - destruct Hfound as [Qprime [Hrec Heq]]. rewrite Hrec. cbn [bind]. rewrite Heq.
    reflexivity.
  - destruct (Hbefore i ltac:(lia)) as [Qprime [Hrec Heq]].
    rewrite Hrec. cbn [bind]. rewrite Heq.
    apply IH; [lia | | exact Hfound].
    intros m Hm. apply Hbefore. lia.
Qed.

Lemma recovery_search_none (remaining : nat) :
  forall i,
    no_match_between i (i + Z.of_nat remaining) ->
    recovery_search remaining curve e signature Q i = Throw UnableToFindValidRecoveryFactor.
Proof.
  induction remaining as [ | remaining IH]; intros i Hnone; [reflexivity | ].
  cbn [recovery_search].
  destruct (Hnone i ltac:(lia)) as [Qprime [Hrec Heq]].
  rewrite Hrec. cbn [bind]. rewrite Heq.
  apply IH. intros m Hm. apply Hnone. lia.
Qed.

Lemma recovery_search_propagates (remaining : nat) :
  forall i j err,
    i <= j < i + Z.of_nat remaining ->
    no_match_between i j ->
    recoverPubKey curve e signature j = Throw err ->
    recovery_search remaining curve e signature Q i = Throw err.
Proof.
  induction remaining as [ | remaining IH]; intros i j err Hj Hbefore Hthrow; [lia | ].
  cbn [recovery_search].
  destruct (Z.eq_dec i j) as [-> | Hne].
  - rewrite Hthrow. reflexivity.
  - destruct (Hbefore i ltac:(lia)) as [Qprime [Hrec Heq]].
    rewrite Hrec. cbn [bind]. rewrite Heq.
    apply (IH (i + 1) j); [lia | | exact Hthrow].
    intros m Hm. apply Hbefore. lia.
Qed.

Lemma recovery_search_cases (remaining : nat) :
  forall i,
    (exists j, i <= j < i + Z.of_nat remaining /\ no_match_between i j /\ recovers j true)
    \/ no_match_between i (i + Z.of_nat remaining)
    \/ (exists j err, i <= j < i + Z.of_nat remaining /\ no_match_between i j
                      /\ recoverPubKey curve e signature j = Throw err).
Proof.
  induction remaining as [ | remaining IH]; intros i.
  - right. left. intros m Hm. lia.
  - assert (Hempty : no_match_between i i) by (intros m Hm; lia).
    destruct (recoverPubKey curve e signature i) as [Qprime | err | ] eqn:Hrec.
    + destruct (ecurve.equals curve Qprime Q) eqn:Heq.
      * left. exists i. split; [lia | ]. split; [exact Hempty | ].
        exists Qprime. split; assumption.
      * assert (Hextend : forall j, i + 1 <= j -> no_match_between (i + 1) j ->
                                    no_match_between i j).
        { intros j Hj Hafter m Hm. destruct (Z.eq_dec m i) as [-> | Hne].
          - exists Qprime. split; assumption.
          - apply Hafter. lia. }
        destruct (IH (i + 1)) as [[j [Hj [Hb Hf]]] | [Hnone | [j [err [Hj [Hb Ht]]]]]].
        -- left. exists j. split; [lia | ]. split; [apply Hextend; [lia | exact Hb] | exact Hf].
        -- right. left. apply Hextend; [lia | ].
           intros m Hm. apply Hnone. lia.
        -- right. right. exists j, err. split; [lia | ].
           split; [apply Hextend; [lia | exact Hb] | exact Ht].
    + right. right. exists i, err. split; [lia | ]. split; [exact Hempty | exact Hrec].
    + exfalso. exact (recoverPubKey_completes curve e signature i Hrec).
Qed.

Lemma recovery_search_returns (remaining : nat) :
  forall i j,
    recovery_search remaining curve e signature Q i = Normal j ->
    i <= j < i + Z.of_nat remaining /\ no_match_between i j /\ recovers j true.
Proof.
  intros i j Hret.
  destruct (recovery_search_cases remaining i)
    as [[j' [Hj [Hb Hf]]] | [Hnone | [j' [err [Hj [Hb Ht]]]]]].
  - rewrite (recovery_search_found remaining i j' Hj Hb Hf) in Hret.
    injection Hret as <-. repeat split; try assumption; lia.
  - rewrite (recovery_search_none remaining i Hnone) in Hret. discriminate Hret.
  - rewrite (recovery_search_propagates remaining i j' err Hj Hb Ht) in Hret.
    discriminate Hret.
Qed.

End RecoveryParam.

Section Verification.
Context {Point : Type} (curve : ecurve.Curve Point).

Local Abbreviation n := (ecurve.n curve).
Local Abbreviation G := (ecurve.G curve).

(** C2. [verifyRaw] always returns a boolean.  It is [false] when [r] or
    [s] is outside [[1, n-1]]; otherwise, with [c = s^-1 mod n],
    [u1 = e c mod n], [u2 = r c mod n] and [R] the one double-scalar
    product [u1.G + u2.Q], it is [false] when [R] is the point at infinity
    and otherwise tells whether [R.x mod n = r].  [verify] is [verifyRaw]
    on the integer of the digest. *)
Theorem verifyRaw_spec (e : Z) (signature : ECSignature.t) (Q : Point) :
  CurveLaws curve ->
  let r := ECSignature.r signature in
  let s := ECSignature.s signature in
  (exists b, verifyRaw curve e signature Q = Normal b)
  /\ (~ (1 <= r <= n - 1 /\ 1 <= s <= n - 1) -> verifyRaw curve e signature Q = Normal false)
  /\ (1 <= r <= n - 1 -> 1 <= s <= n - 1 ->
      let c := Z.invmod s n in
      let u1 := (e * c) mod n in
      let u2 := (r * c) mod n in
      let R := ecurve.multiplyTwo curve G u1 Q u2 in
      (c * s) mod n = 1
      /\ (R = ecurve.infinity curve -> verifyRaw curve e signature Q = Normal false)
      /\ (R <> ecurve.infinity curve ->
          exists xR, ecurve.affineX curve R = Some xR
                     /\ (verifyRaw curve e signature Q = Normal true <-> xR mod n = r)
                     /\ (verifyRaw curve e signature Q = Normal false <-> xR mod n <> r)))
  /\ (forall hash, verify curve hash signature Q
                   = verifyRaw curve (BigInteger.fromBuffer hash) signature Q).
Proof.
  intros laws r s.
  assert (Hin : 1 <= r <= n - 1 -> 1 <= s <= n - 1 ->
                let c := Z.invmod s n in
                let R := ecurve.multiplyTwo curve G ((e * c) mod n) Q ((r * c) mod n) in
                verifyRaw curve e signature Q =
                if ecurve.isInfinity curve R then Normal false
                else match ecurve.affineX curve R with
                     | Some xR => Normal (xR mod n =? r)
                     | None => Throw TypeError
                     end).
  { intros Hr Hs. unfold verifyRaw. fold r s.
    rewrite !out_of_range_test, !range_test_true by lia. cbn [negb].
    rewrite modInverse_nonzero by lia. cbn [bind]. rewrite !mod_eq by lia.
    cbv zeta. destruct (ecurve.isInfinity curve _); [reflexivity | ].
    destruct (ecurve.affineX curve _); [ | reflexivity].
    rewrite mod_eq by lia. reflexivity. }
  assert (Hout : ~ (1 <= r <= n - 1 /\ 1 <= s <= n - 1) ->
                 verifyRaw curve e signature Q = Normal false).
  { intros Hbad. unfold verifyRaw. fold r s. rewrite !out_of_range_test.
    destruct ((0 <? r) && (r <? n)) eqn:Hr; cbn [negb]; [ | reflexivity].
    destruct ((0 <? s) && (s <? n)) eqn:Hs; cbn [negb]; [ | reflexivity].
    exfalso. apply Hbad. apply andb_true_iff in Hr, Hs. lia. }
  assert (Hpoint : 1 <= r <= n - 1 -> 1 <= s <= n - 1 ->
                   let c := Z.invmod s n in
                   let R := ecurve.multiplyTwo curve G ((e * c) mod n) Q ((r * c) mod n) in
                   (R = ecurve.infinity curve -> verifyRaw curve e signature Q = Normal false)
                   /\ (R <> ecurve.infinity curve ->
                       exists xR, ecurve.affineX curve R = Some xR
                                  /\ verifyRaw curve e signature Q = Normal (xR mod n =? r))).
  { intros Hr Hs c R. rewrite (Hin Hr Hs). cbv zeta. fold c R. split.
    - intros HR. apply (isInfinity_spec curve laws) in HR. rewrite HR. reflexivity.
    - intros HR. destruct (affineX_finite curve laws R HR) as [xR HxR].
      apply (isInfinity_false curve laws) in HR. rewrite HR, HxR.
      exists xR. split; reflexivity. }
  split; [ | split; [exact Hout | split]].
  - destruct (Z.le_decidable 1 r), (Z.le_decidable r (n - 1)),
      (Z.le_decidable 1 s), (Z.le_decidable s (n - 1));
      try (exists false; apply Hout; lia).
    destruct (Hpoint ltac:(lia) ltac:(lia)) as [Hinf Hfin]. cbv zeta in Hinf, Hfin.
    set (R := ecurve.multiplyTwo curve G _ Q _) in *.
    destruct (ecurve.isInfinity curve R) eqn:HR.
    + exists false. apply Hinf, (isInfinity_spec curve laws). exact HR.
    + apply (isInfinity_false curve laws) in HR.
      destruct (Hfin HR) as [xR [_ ->]]. eexists. reflexivity.
  - intros Hr Hs c u1 u2 R. split.
    + apply Z.invmod_prime; [exact (order_prime curve laws) | ].
      rewrite Z.mod_small by lia. lia.
    + destruct (Hpoint Hr Hs) as [Hinf Hfin]. split; [exact Hinf | ].
      intros HR. destruct (Hfin HR) as [xR [HxR Hv]].
      exists xR. split; [exact HxR | ]. fold c u1 u2 R in Hv. rewrite Hv.
      destruct (Z.eqb_spec (xR mod n) r) as [Heq | Hne]; split; split;
        intros H; try reflexivity; try assumption; try discriminate H; contradiction.
  - intros hash. reflexivity.
Qed.
End Verification.



(** The id search can itself fail on a signature made by [sign] for the very
    key it is given: here the id 1 is rejected by the curve before the id 2,
    which recovers the key, is tried. *)
Lemma recovery_search_stops_early :
  sign (hash_primitives := Toy.hashes) 8 Toy.curve (Toy.digest 7) 1 None
  = Normal (ECSignature.new 3 6)
  /\ recoverPubKey Toy.curve 7 (ECSignature.new 3 6) 1 = Throw CurveRejectedPoint
  /\ recoverPubKey Toy.curve 7 (ECSignature.new 3 6) 2 = Normal (Toy.publicKey 1)
  /\ calcPubKeyRecoveryParam Toy.curve 7 (ECSignature.new 3 6) (Toy.publicKey 1)
     = Throw CurveRejectedPoint.
Proof. repeat split; vm_compute; reflexivity. Qed.



Lemma recoverPubKey_spec_witness :
  (0 <= 0 <= 3 /\ 0 < 5 < ecurve.n Toy.curve /\ 0 < 5 < ecurve.n Toy.curve)
  /\ recoverPubKey Toy.curve 5 (ECSignature.new 5 5) 0 = Normal Toy.P16_1
  /\ Toy.P16_1 <> Toy.Inf
  /\ 0 <= (- 5) mod 13 <= 13 - 1
  /\ exists err, recoverPubKey Toy.curve 5 (ECSignature.new 0 5) 0 = Throw err
                 /\ kind err = Some InputValidation.
Proof.
  assert (Hvalid : 0 <= 0 <= 3 /\ 0 < 5 < ecurve.n Toy.curve /\ 0 < 5 < ecurve.n Toy.curve)
    by (cbn; lia).
  destruct (recoverPubKey_spec Toy.curve 5 (ECSignature.new 5 5) 0 toy_curve_laws)
    as [_ Hgood].
  destruct (Hgood Hvalid) as [Hrange [_ Hpoint]].
  vm_compute in Hpoint.
  destruct (recoverPubKey_spec Toy.curve 5 (ECSignature.new 0 5) 0 toy_curve_laws)
    as [Hbad _].
  split; [exact Hvalid | ]. split; [exact (proj1 Hpoint) | ].
  split; [exact (proj2 Hpoint) | ]. split; [exact Hrange | ].
  apply Hbad. cbn. lia.
Defined.

Lemma verifyRaw_spec_witness :
  (1 <= 5 <= ecurve.n Toy.curve - 1)
  /\ (Z.invmod 5 13 * 5) mod 13 = 1
  /\ verifyRaw Toy.curve 5 (ECSignature.new 5 5) (Toy.publicKey 7) = Normal true
  /\ verifyRaw Toy.curve 5 (ECSignature.new 0 5) (Toy.publicKey 7) = Normal false.
Proof.
  assert (Hrange : 1 <= 5 <= ecurve.n Toy.curve - 1) by (cbn; lia).
  destruct (verifyRaw_spec Toy.curve 5 (ECSignature.new 5 5) (Toy.publicKey 7) toy_curve_laws)
    as [_ [_ [Hin _]]].
  destruct (Hin Hrange Hrange) as [Hinverse [_ Hfinite]].
  destruct (Hfinite ltac:(vm_compute; discriminate)) as [xR [HxR [Haccept _]]].
  destruct (verifyRaw_spec Toy.curve 5 (ECSignature.new 0 5) (Toy.publicKey 7) toy_curve_laws)
    as [_ [Hout _]].
  split; [exact Hrange | ]. split; [exact Hinverse | ]. split.
  - apply Haccept. vm_compute in HxR. injection HxR as <-. reflexivity.
  - apply Hout. cbn. lia.
Defined.

(** ** Enough fuel

    The fuel of the model only cuts runs short: as soon as the chain of
    MAC outputs reaches a candidate that the loop test lets through, every
    larger fuel returns it. *)

Section EnoughFuel.
Context {hash_primitives : HashPrimitives} {Point : Type} (curve : ecurve.Curve Point).

Lemma deterministicGenerateK_unfold {Env : Type} (fuel : nat) (hash : Buffer.t) (d : Z)
    (checkSig : callback Env) (env : Env) :
  Buffer.length hash = 32 ->
  deterministicGenerateK fuel curve hash d checkSig None env
  = generateK_loop fuel curve checkSig (fst (loop_entry hash d)) (snd (loop_entry hash d))
      (candidate 0 (fst (loop_entry hash d)) (snd (loop_entry hash d))) env.
Proof.
  intros Hlen. unfold deterministicGenerateK. cbn [truthy].
  rewrite Hlen. reflexivity.
Qed.

Lemma generateK_loop_enough_fuel {Env : Type} (checkSig : callback Env) (j : nat) :
  forall (k v : Buffer.t) (env : Env) (fuel : nat),
    (forall m, (m < j)%nat -> rejected (ecurve.n curve) checkSig (candidate m k v)) ->
    0 < candidate j k v < ecurve.n curve ->
    answers checkSig (candidate j k v) true ->
    (j < fuel)%nat ->
    exists env',
      generateK_loop fuel curve checkSig k v (candidate 0 k v) env
      = Normal (candidate j k v, env').
Proof.
  induction j as [ | j IH]; intros k v env fuel Hbefore Hrange Haccept Hfuel;
    (destruct fuel as [ | fuel]; [lia | ]); rewrite generateK_loop_unfold; cbv zeta.
  - rewrite range_test_true by exact Hrange.
    destruct (Haccept env) as [env' ->]. exists env'. reflexivity.
  - assert (Hnext : forall env1,
               exists env',
                 generateK_loop fuel curve checkSig (fst (rekey k v)) (snd (rekey k v))
                   (BigInteger.fromBuffer (snd (rekey k v))) env1
                 = Normal (candidate (S j) k v, env')).
    { intros env1.
      apply (IH (fst (rekey k v)) (snd (rekey k v)) env1 fuel);
        [ | exact Hrange | exact Haccept | lia].
      intros m Hm. apply (Hbefore (S m)). lia. }
    destruct (Hbefore 0%nat ltac:(lia)) as [Hout | Hrefused].
    + rewrite range_test_false by exact Hout. apply Hnext.
    + destruct ((0 <? candidate 0 k v) && (candidate 0 k v <? ecurve.n curve));
        [ | apply Hnext].
      destruct (Hrefused env) as [env1 ->]. apply Hnext.
Qed.

(** On a lawful curve the callback of [sign] never throws on a scalar of
    [[1, n-1]], and its verdict does not depend on the captured variables. *)
Lemma sign_callback_answers (laws : CurveLaws curve) (e d k : Z) :
  0 < k < ecurve.n curve ->
  exists verdict, answers (sign_callback curve e d) k verdict.
Proof.
  intros Hk.
  pose proof (multiply_G_finite curve laws k Hk) as Hfinite.
  destruct (affineX_finite curve laws _ Hfinite) as [x Hx].
  apply (isInfinity_false curve laws) in Hfinite.
  destruct (BigInteger.signum (BigInteger.mod_ x (ecurve.n curve)) =? 0) eqn:Hr.
  - exists false. intros vars. unfold sign_callback.
    rewrite Hfinite, Hx, Hr. eexists. reflexivity.
  - destruct (BigInteger.signum
                (BigInteger.mod_
                   (Z.invmod k (ecurve.n curve)
                    * (e + d * BigInteger.mod_ x (ecurve.n curve))) (ecurve.n curve)) =? 0)
      eqn:Hs.
    + exists false. intros vars. unfold sign_callback.
      rewrite Hfinite, Hx, Hr, modInverse_nonzero by lia. cbn [bind].
      rewrite Hs. eexists. reflexivity.
    + exists true. intros vars. unfold sign_callback.
      rewrite Hfinite, Hx, Hr, modInverse_nonzero by lia. cbn [bind].
      rewrite Hs. eexists. reflexivity.
Qed.

(** [sign] returns as soon as the fuel exceeds the index of the first
    candidate in [[1, n-1]] that its callback accepts. *)
Lemma sign_enough_fuel (laws : CurveLaws curve) (hash : Buffer.t) (d : Z) (j fuel : nat) :
  Buffer.length hash = 32 ->
  let e := BigInteger.fromBuffer hash in
  let k := fst (loop_entry hash d) in
  let v := snd (loop_entry hash d) in
  (forall m, (m < j)%nat ->
             ~ (0 < candidate m k v < ecurve.n curve
                /\ answers (sign_callback curve e d) (candidate m k v) true)) ->
  0 < candidate j k v < ecurve.n curve ->
  answers (sign_callback curve e d) (candidate j k v) true ->
  (j < fuel)%nat ->
  exists signature, sign fuel curve hash d None = Normal signature.
Proof.
  intros Hlen e k v Hbefore Hrange Haccept Hfuel.
  assert (Hrejected : forall m, (m < j)%nat ->
                        rejected (ecurve.n curve) (sign_callback curve e d) (candidate m k v)).
  { intros m Hm.
    destruct (Z.lt_decidable 0 (candidate m k v)) as [Hpos | Hneg]; [ | left; lia].
    destruct (Z.lt_decidable (candidate m k v) (ecurve.n curve)) as [Hlt | Hge];
      [ | left; lia].
    right. destruct (sign_callback_answers laws e d (candidate m k v) (conj Hpos Hlt))
      as [[ | ] Hverdict]; [ | exact Hverdict].
    exfalso. exact (Hbefore m Hm (conj (conj Hpos Hlt) Hverdict)). }
  destruct (generateK_loop_enough_fuel (sign_callback curve e d) j k v
              {| var_r := None; var_s := None |} fuel Hrejected Hrange Haccept Hfuel)
    as [vars Hloop].
  unfold sign. rewrite deterministicGenerateK_unfold by exact Hlen.
  fold e k v. rewrite Hloop. cbn [bind].
  destruct (Haccept {| var_r := None; var_s := None |}) as [vars0 Hcb].
  pose proof Hloop as Hshape. apply generateK_loop_accepts in Hshape.
  destruct Hshape as [_ [vars1 Hcb1]].
  apply sign_callback_accepts in Hcb1; [ | exact Hrange].
  destruct Hcb1 as [_ [x [_ [_ [_ ->]]]]]. cbn [var_r var_s].
  eexists. reflexivity.
Qed.
End EnoughFuel.

Lemma sign_enough_fuel_example :
  exists signature,
    sign (hash_primitives := Toy.hashes) 100 Toy.curve (Toy.digest 5) 7 None = Normal signature.
Proof.
  apply (sign_enough_fuel (hash_primitives := Toy.hashes) Toy.curve toy_curve_laws
           (Toy.digest 5) 7 1 100).
  - reflexivity.
  - intros m Hm [Hrange _].
    assert (m = 0%nat) as -> by lia.
    vm_compute in Hrange. destruct Hrange as [Hpos _]. discriminate Hpos.
  - vm_compute. split; reflexivity.
  - intros vars. destruct vars as [r0 s0]. eexists. vm_compute. reflexivity.
  - lia.
Qed.

(** ** When the id search succeeds

    C5 speaks of the id that [calcPubKeyRecoveryParam] returns.  It does
    return one, 0 or 1, for a signature made by [sign] as soon as the
    abscissa of the nonce point is [r] itself (and not [r + n]) and
    [2e + d r] is not a multiple of [n]. *)

Section RecoveryCompletes.
Context {Point : Type} (curve : ecurve.Curve Point).
Context (laws : CurveLaws curve) (recovery_laws : RecoveryLaws curve).

#[local] Existing Instances eqm_setoid Zplus_eqm Zminus_eqm Zmult_eqm Zopp_eqm.

Local Abbreviation n := (ecurve.n curve).
Local Abbreviation G := (ecurve.G curve).

Lemma eqm_mod (m a : Z) : eqm m (a mod m) a.
Proof.
  unfold eqm. destruct (Z.eq_dec m 0) as [-> | Hm]; [ | apply Z.mod_mod; exact Hm].
  rewrite !Z.mod_0_r. reflexivity.
Qed.

Lemma eqm_multiple (m a : Z) : eqm m (m * a) 0.
Proof.
  unfold eqm. rewrite Z.mul_comm.
  destruct (Z.eq_dec m 0) as [-> | Hm]; [rewrite Z.mul_0_r; reflexivity | ].
  rewrite Z.mod_mul by exact Hm. rewrite Z.mod_0_l by exact Hm. reflexivity.
Qed.

Lemma eqm_invmod (m a : Z) : Z.prime m -> 0 < a < m -> eqm m (Z.invmod a m * a) 1.
Proof.
  intros Hm Ha. pose proof (Z.prime_ge_2 _ Hm) as Hm2. unfold eqm.
  rewrite Z.invmod_prime; [ | exact Hm | rewrite Z.mod_small by lia; lia].
  rewrite Z.mod_small by lia. reflexivity.
Qed.

(** The product of the nonce and [s0] is [e + d r] modulo the order. *)
Lemma nonce_times_s (m k e d r : Z) :
  Z.prime m -> 0 < k < m ->
  eqm m (k * ((Z.invmod k m * (e + d * r)) mod m)) (e + d * r).
Proof.
  intros Hm Hk. setoid_rewrite (eqm_mod m (Z.invmod k m * (e + d * r))).
  replace (k * (Z.invmod k m * (e + d * r))) with ((Z.invmod k m * k) * (e + d * r)) by ring.
  setoid_rewrite (eqm_invmod m k Hm Hk).
  replace (1 * (e + d * r)) with (e + d * r) by ring. reflexivity.
Qed.

(** With the sign of the point that goes with the sign of [s], the
    recovered scalar is the private key. *)
Lemma recovery_scalar (m k e d r : Z) (flipped : bool) :
  Z.prime m -> 0 < k < m -> 0 < d < m -> 0 < r < m ->
  let s0 := (Z.invmod k m * (e + d * r)) mod m in
  let s := if flipped then m - s0 else s0 in
  let kb := if flipped then m - k else k in
  ((kb * s + (- e) mod m) * Z.invmod r m) mod m = d.
Proof.
  intros Hm Hk Hd Hr s0 s kb.
  transitivity (d mod m); [ | apply Z.mod_small; lia].
  change (eqm m ((kb * s + (- e) mod m) * Z.invmod r m) d).
  assert (Hks : eqm m (kb * s) (e + d * r)).
  { transitivity (k * s0); [ | apply nonce_times_s; assumption].
    subst kb s. destruct flipped; [ | reflexivity].
    replace ((m - k) * (m - s0)) with (m * (m - s0 - k) + k * s0) by ring.
    setoid_rewrite (eqm_multiple m (m - s0 - k)). reflexivity. }
  setoid_rewrite Hks. setoid_rewrite (eqm_mod m (- e)).
  replace ((e + d * r + - e) * Z.invmod r m) with (d * (Z.invmod r m * r)) by ring.
  setoid_rewrite (eqm_invmod m r Hm Hr).
  replace (d * 1) with d by ring. reflexivity.
Qed.

(** With the other sign, the recovered scalar is not zero unless
    [2e + d r] is a multiple of the order. *)
Lemma recovery_scalar_other (m k e d r : Z) (flipped : bool) :
  Z.prime m -> 0 < k < m -> 0 < r < m ->
  let s0 := (Z.invmod k m * (e + d * r)) mod m in
  let s := if flipped then m - s0 else s0 in
  let kb := if flipped then k else m - k in
  (2 * e + d * r) mod m <> 0 ->
  ((kb * s + (- e) mod m) * Z.invmod r m) mod m <> 0.
Proof.
  intros Hm Hk Hr s0 s kb Hnondegenerate Hzero.
  pose proof (Z.prime_ge_2 _ Hm) as Hm2.
  apply Hnondegenerate.
  assert (Hks : eqm m (kb * s) (- (e + d * r))).
  { transitivity (- (k * s0));
      [ | apply (Zopp_eqm m), nonce_times_s; assumption].
    subst kb s. destruct flipped.
    - replace (k * (m - s0)) with (m * k + - (k * s0)) by ring.
      setoid_rewrite (eqm_multiple m k). reflexivity.
    - replace ((m - k) * s0) with (m * s0 + - (k * s0)) by ring.
      setoid_rewrite (eqm_multiple m s0). reflexivity. }
  assert (Hprod : eqm m ((kb * s + (- e) mod m) * Z.invmod r m) 0)
    by (unfold eqm; rewrite Hzero, Z.mod_0_l by lia; reflexivity).
  assert (Hsum : eqm m (kb * s + (- e) mod m) 0).
  { replace (kb * s + (- e) mod m)
      with ((kb * s + (- e) mod m) * 1) by ring.
    setoid_rewrite <- (eqm_invmod m r Hm Hr).
    replace ((kb * s + (- e) mod m) * (Z.invmod r m * r))
      with ((kb * s + (- e) mod m) * Z.invmod r m * r) by ring.
    setoid_rewrite Hprod. reflexivity. }
  setoid_rewrite Hks in Hsum. setoid_rewrite (eqm_mod m (- e)) in Hsum.
  assert (Hneg : eqm m (- (- (e + d * r) + - e)) (- 0)) by (setoid_rewrite Hsum; reflexivity).
  replace (- (- (e + d * r) + - e)) with (2 * e + d * r) in Hneg by ring.
  unfold eqm in Hneg. rewrite Hneg. apply Z.mod_0_l. lia.
Qed.

(** [recoverPubKey] with the parity [isOdd] when the curve reconstructs the
    multiple [kb.G] for it. *)
Lemma recoverPubKey_multiple (e : Z) (signature : ECSignature.t) (isOdd : bool) (kb : Z) :
  let r := ECSignature.r signature in
  let s := ECSignature.s signature in
  let scalar := ((kb * s + (- e) mod n) * Z.invmod r n) mod n in
  0 < r < n -> 0 < s < n -> 0 < kb < n ->
  ecurve.pointFromX curve isOdd r = Some (ecurve.multiply curve G kb) ->
  scalar <> 0 ->
  recoverPubKey curve e signature (if isOdd then 1 else 0)
  = Normal (ecurve.multiply curve G scalar).
Proof.
  intros r s scalar Hr Hs Hkb Hpoint Hscalar.
  pose proof (order_ge_2 curve laws) as Hn.
  pose proof (Z.mod_pos_bound (- e) n ltac:(lia)) as HeNeg.
  pose proof (Z.mod_pos_bound (fst (fst (Z.extgcd (r mod n) n))) n ltac:(lia)) as Hri.
  fold (Z.invmod r n) in Hri.
  pose proof (Z.mod_pos_bound ((kb * s + (- e) mod n) * Z.invmod r n) n ltac:(lia)) as Hsc.
  fold scalar in Hsc.
  rewrite recoverPubKey_valid by (destruct isOdd; lia). fold r s.
  replace (Z.testbit (if isOdd then 1 else 0) 0) with isOdd by (destruct isOdd; reflexivity).
  replace (Z.testbit (if isOdd then 1 else 0) 1) with false by (destruct isOdd; reflexivity).
  rewrite Hpoint.
  assert (HnR : ecurve.multiply curve (ecurve.multiply curve G kb) n = ecurve.infinity curve).
  { rewrite (multiply_multiply curve laws) by lia.
    rewrite Z.mul_comm, <- (multiply_multiply curve laws) by lia.
    rewrite (G_order curve laws). apply (multiply_infinity curve laws). lia. }
  rewrite HnR.
  replace (ecurve.isInfinity curve (ecurve.infinity curve)) with true
    by (symmetry; apply (isInfinity_spec curve laws); reflexivity).
  cbv zeta.
  assert (HQ : ecurve.multiply curve
                 (ecurve.multiplyTwo curve (ecurve.multiply curve G kb) s G ((- e) mod n))
                 (Z.invmod r n)
               = ecurve.multiply curve G scalar).
  { rewrite (multiplyTwo_spec curve laws) by lia.
    rewrite (multiply_multiply curve laws) by lia.
    rewrite <- (multiply_add curve laws) by nia.
    rewrite (multiply_multiply curve laws) by nia.
    rewrite <- (multiply_G_mod curve laws) by nia. reflexivity. }
  rewrite HQ.
  rewrite (validate_complete curve recovery_laws)
    by (apply (multiply_G_finite curve laws); lia).
  reflexivity.
Qed.

Lemma recovery_completes {hash_primitives : HashPrimitives} (fuel : nat) (hash : Buffer.t)
    (d : Z) (nonce : option N) (signature : ECSignature.t) :
  let e := BigInteger.fromBuffer hash in
  let r := ECSignature.r signature in
  let Q := ecurve.multiply curve G d in
  0 < d < n ->
  sign fuel curve hash d nonce = Normal signature ->
  (forall k x, 0 < k < n -> ecurve.affineX curve (ecurve.multiply curve G k) = Some x ->
               x mod n = r -> x = r) ->
  (2 * e + d * r) mod n <> 0 ->
  exists i, 0 <= i <= 1
            /\ calcPubKeyRecoveryParam curve e signature Q = Normal i
            /\ recoverPubKey curve e signature i = Normal Q.
Proof.
  intros e r Q Hd Hsign Habscissa Hnondegenerate.
  pose proof (order_ge_2 curve laws) as Hn.
  destruct (sign_inversion curve fuel hash d nonce signature Hsign)
    as [k [x [Hk [_ [Hx [Hr0 [Hs0 Hsig]]]]]]].
  assert (Hrx : r = x mod n) by (unfold r; rewrite Hsig; reflexivity).
  assert (Hs : ECSignature.s signature
               = let s0 := (Z.invmod k n * (e + d * (x mod n))) mod n in
                 if s0 >? Z.shiftr n 1 then n - s0 else s0)
    by (rewrite Hsig; reflexivity).
  clear Hsig. fold e in Hs0. rewrite <- Hrx in Hs0, Hs.
  assert (Hxr : x = r) by (apply (Habscissa k x Hk Hx); symmetry; exact Hrx).
  assert (Hr : 0 < r < n).
  { pose proof (Z.mod_pos_bound x n ltac:(lia)). rewrite <- Hrx in *. lia. }
  set (s0 := (Z.invmod k n * (e + d * r)) mod n) in *. cbv zeta in Hs.
  set (flipped := s0 >? Z.shiftr n 1) in *.
  assert (Hs0' : 0 <= s0 < n) by (apply Z.mod_pos_bound; lia).
  assert (Hsr : 0 < ECSignature.s signature < n) by (rewrite Hs; destruct flipped; lia).
  (* the two reconstructions of the abscissa r *)
  rewrite Hxr in Hx.
  destruct (pointFromX_complete curve recovery_laws _ _ Hx) as [odd0 Hodd0].
  pose proof (pointFromX_opposite curve recovery_laws _ _ _ Hodd0) as Hodd1.
  rewrite <- (multiply_G_opp curve laws) in Hodd1 by exact Hk.
  (* the parity that goes with the sign of s, and the other one *)
  set (good := if flipped then negb odd0 else odd0).
  assert (Hgood : ecurve.pointFromX curve good r
                  = Some (ecurve.multiply curve G (if flipped then n - k else k)))
    by (subst good; destruct flipped; assumption).
  assert (Hother : ecurve.pointFromX curve (negb good) r
                   = Some (ecurve.multiply curve G (if flipped then k else n - k))).
  { subst good; destruct flipped; [rewrite negb_involutive | ]; assumption. }
  pose proof (recovery_scalar n k e d r flipped (order_prime curve laws) Hk Hd Hr) as Hscalar.
  pose proof (recovery_scalar_other n k e d r flipped (order_prime curve laws) Hk Hr
                Hnondegenerate) as Hscalar'.
  cbv zeta in Hscalar, Hscalar'. fold s0 in Hscalar, Hscalar'. rewrite <- Hs in Hscalar, Hscalar'.
  assert (Hrec_good : recoverPubKey curve e signature (if good then 1 else 0) = Normal Q).
  { rewrite (recoverPubKey_multiple e signature good (if flipped then n - k else k));
      try assumption; fold r; try (destruct flipped; lia).
    rewrite Hscalar. reflexivity. }
  assert (Hrec_other : exists Q', recoverPubKey curve e signature (if negb good then 1 else 0)
                                  = Normal Q').
  { eexists.
    apply (recoverPubKey_multiple e signature (negb good) (if flipped then k else n - k));
      try assumption; fold r; destruct flipped; lia. }
  assert (Hmatch : ecurve.equals curve Q Q = true) by (apply (equals_spec curve laws); reflexivity).
  destruct good.
  - (* the matching parity is odd: id 1, unless id 0 already matches *)
    cbn [negb] in Hrec_other. destruct Hrec_other as [Q' HQ'].
    destruct (ecurve.equals curve Q' Q) eqn:Heq.
    + exists 0. split; [lia | ].
      apply (equals_spec curve laws) in Heq. subst Q'. split; [ | exact HQ'].
      unfold calcPubKeyRecoveryParam. cbn [recovery_search].
      rewrite HQ'. cbn [bind]. rewrite Hmatch. reflexivity.
    + exists 1. split; [lia | ]. split; [ | exact Hrec_good].
      unfold calcPubKeyRecoveryParam. cbn [recovery_search].
      rewrite HQ'. cbn [bind]. rewrite Heq.
      change (0 + 1) with 1. rewrite Hrec_good. cbn [bind]. rewrite Hmatch. reflexivity.
  - exists 0. split; [lia | ]. split; [ | exact Hrec_good].
    unfold calcPubKeyRecoveryParam. cbn [recovery_search].
    rewrite Hrec_good. cbn [bind]. rewrite Hmatch. reflexivity.
Qed.
End RecoveryCompletes.

Lemma toy_recovery_laws : RecoveryLaws Toy.curve.
Proof.
  constructor; cbn.
  - intros P x HP. destruct P; try discriminate HP; injection HP as <-;
      first [exists false; vm_compute; reflexivity | exists true; vm_compute; reflexivity].
  - intros isOdd x R. unfold Toy.pointFromX.
    destruct (Z.leb_spec 0 x); [ | discriminate]. destruct (Z.ltb_spec x Toy.p); [ | discriminate].
    cbn [andb].
    assert (Hcases : x = 0 \/ x = 1 \/ x = 2 \/ x = 3 \/ x = 4 \/ x = 5 \/ x = 6 \/ x = 7
                     \/ x = 8 \/ x = 9 \/ x = 10 \/ x = 11 \/ x = 12 \/ x = 13 \/ x = 14
                     \/ x = 15 \/ x = 16 \/ x = 17 \/ x = 18) by (unfold Toy.p in *; lia).
    repeat (destruct Hcases as [-> | Hcases];
            [destruct isOdd; vm_compute; intros HR; try discriminate HR;
             injection HR as <-; reflexivity | ]).
    subst x. destruct isOdd; vm_compute; intros HR; try discriminate HR;
      injection HR as <-; reflexivity.
  - intros Q HQ. destruct Q; [contradiction | vm_compute; reflexivity ..].
Qed.

Lemma recovery_completes_example :
  exists i, 0 <= i <= 1
            /\ calcPubKeyRecoveryParam Toy.curve 5 (ECSignature.new 5 5) (Toy.publicKey 7)
               = Normal i
            /\ recoverPubKey Toy.curve 5 (ECSignature.new 5 5) i = Normal (Toy.publicKey 7).
Proof.
  apply (recovery_completes Toy.curve toy_curve_laws toy_recovery_laws
           (hash_primitives := Toy.hashes) 8 (Toy.digest 5) 7 None (ECSignature.new 5 5)).
  - cbn. lia.
  - vm_compute. reflexivity.
  - intros k x Hk Hx Hmod. cbn in Hk.
    assert (Hcases : k = 1 \/ k = 2 \/ k = 3 \/ k = 4 \/ k = 5 \/ k = 6 \/ k = 7 \/ k = 8
                     \/ k = 9 \/ k = 10 \/ k = 11 \/ k = 12) by lia.
    repeat (destruct Hcases as [-> | Hcases];
            [vm_compute in Hx; injection Hx as <-; vm_compute in Hmod;
             first [discriminate Hmod | reflexivity] | ]).
    subst k. vm_compute in Hx. injection Hx as <-. vm_compute in Hmod.
    first [discriminate Hmod | reflexivity].
  - vm_compute. discriminate.
Qed.

(** * Further properties of the module *)

(** ** More of the group of a lawful curve *)

Section GroupFacts.
Context {Point : Type} (curve : ecurve.Curve Point) (laws : CurveLaws curve).

#[local] Existing Instances eqm_setoid Zplus_eqm Zminus_eqm Zmult_eqm Zopp_eqm.

Local Abbreviation n := (ecurve.n curve).
Local Abbreviation G := (ecurve.G curve).
Local Abbreviation infinity := (ecurve.infinity curve).
Local Abbreviation add := (ecurve.add curve).
Local Abbreviation negate := (ecurve.negate curve).
Local Abbreviation multiply := (ecurve.multiply curve).

Lemma negate_infinity : negate infinity = infinity.
Proof.
  symmetry. apply (negate_unique curve laws). apply (add_infinity curve laws).
Qed.

Lemma negate_involutive (P : Point) : negate (negate P) = P.
Proof.
  symmetry. apply (negate_unique curve laws).
  rewrite (add_comm curve laws). apply (add_negate curve laws).
Qed.

Lemma add_swap (P Q R S : Point) :
  add (add P Q) (add R S) = add (add P R) (add Q S).
Proof.
  rewrite <- (add_assoc curve laws P Q), (add_assoc curve laws Q R S).
  rewrite (add_comm curve laws Q R).
  rewrite <- (add_assoc curve laws R Q S), (add_assoc curve laws P R). reflexivity.
Qed.

Lemma negate_add (P Q : Point) : negate (add P Q) = add (negate P) (negate Q).
Proof.
  symmetry. apply (negate_unique curve laws).
  rewrite add_swap, !(add_negate curve laws). apply (add_infinity curve laws).
Qed.

Lemma negate_finite (P : Point) : negate P = infinity <-> P = infinity.
Proof.
  split; intros H.
  - rewrite <- (negate_involutive P), H. apply negate_infinity.
  - rewrite H. apply negate_infinity.
Qed.

Lemma multiply_add_points (P Q : Point) (k : Z) :
  0 <= k -> multiply (add P Q) k = add (multiply P k) (multiply Q k).
Proof.
  revert k. apply natlike_ind.
  - rewrite !(multiply_zero curve laws), (add_infinity curve laws). reflexivity.
  - intros k Hk IH. replace (Z.succ k) with (k + 1) by lia.
    rewrite !(multiply_step curve laws) by lia. rewrite IH. apply add_swap.
Qed.

Lemma multiply_negate (P : Point) (k : Z) :
  0 <= k -> multiply (negate P) k = negate (multiply P k).
Proof.
  revert k. apply natlike_ind.
  - rewrite !(multiply_zero curve laws), negate_infinity. reflexivity.
  - intros k Hk IH. replace (Z.succ k) with (k + 1) by lia.
    rewrite !(multiply_step curve laws) by lia. rewrite IH, negate_add. reflexivity.
Qed.

(** Points killed by the order: scalars count modulo [n]. *)
Lemma multiply_mod_order (P : Point) (k : Z) :
  multiply P n = infinity -> 0 <= k -> multiply P (k mod n) = multiply P k.
Proof.
  intros HP Hk. pose proof (order_ge_2 curve laws) as Hn.
  rewrite (Z.div_mod k n) at 2 by lia.
  assert (Hq : 0 <= k / n) by (apply Z.div_pos; lia).
  pose proof (Z.mod_pos_bound k n ltac:(lia)) as Hr.
  rewrite (multiply_add curve laws) by nia.
  rewrite <- (multiply_multiply curve laws) by lia.
  rewrite HP, (multiply_infinity curve laws) by lia.
  rewrite (add_infinity curve laws). reflexivity.
Qed.

Lemma multiply_congruent (P : Point) (j k : Z) :
  multiply P n = infinity -> 0 <= j -> 0 <= k -> eqm n j k ->
  multiply P j = multiply P k.
Proof.
  intros HP Hj Hk Heq.
  rewrite <- (multiply_mod_order P j HP Hj), <- (multiply_mod_order P k HP Hk).
  unfold eqm in Heq. rewrite Heq. reflexivity.
Qed.

Lemma multiply_opposite (P : Point) (j k : Z) :
  multiply P n = infinity -> 0 <= j -> 0 <= k -> eqm n (j + k) 0 ->
  multiply P j = negate (multiply P k).
Proof.
  intros HP Hj Hk Heq. apply (negate_unique curve laws).
  rewrite <- (multiply_add curve laws) by lia.
  rewrite (multiply_congruent P (k + j) 0 HP) by (try lia; rewrite Z.add_comm; exact Heq).
  apply (multiply_zero curve laws).
Qed.

Lemma order_G : multiply G n = infinity.
Proof. apply (G_order curve laws). Qed.

Lemma order_multiply (P : Point) (k : Z) :
  multiply P n = infinity -> 0 <= k -> multiply (multiply P k) n = infinity.
Proof.
  intros HP Hk. pose proof (order_ge_2 curve laws) as Hn.
  rewrite (multiply_multiply curve laws) by lia.
  rewrite Z.mul_comm, <- (multiply_multiply curve laws) by lia.
  rewrite HP. apply (multiply_infinity curve laws). exact Hk.
Qed.

Lemma order_add (P Q : Point) :
  multiply P n = infinity -> multiply Q n = infinity -> multiply (add P Q) n = infinity.
Proof.
  intros HP HQ. pose proof (order_ge_2 curve laws) as Hn.
  rewrite multiply_add_points by lia. rewrite HP, HQ. apply (add_infinity curve laws).
Qed.

Lemma order_negate (P : Point) :
  multiply (negate P) n = infinity <-> multiply P n = infinity.
Proof.
  pose proof (order_ge_2 curve laws) as Hn.
  rewrite multiply_negate by lia. apply negate_finite.
Qed.

Lemma eqm_inverse_unit (a : Z) : 0 < a < n -> eqm n (Z.invmod a n * a) 1.
Proof.
  intros Ha. pose proof (order_ge_2 curve laws) as Hn. unfold eqm.
  rewrite Z.invmod_prime; [ | exact (order_prime curve laws) | rewrite Z.mod_small by lia; lia].
  rewrite Z.mod_small by lia. reflexivity.
Qed.

Lemma eqm_reduce (a : Z) : eqm n (a mod n) a.
Proof.
  pose proof (order_ge_2 curve laws) as Hn. unfold eqm. apply Z.mod_mod. lia.
Qed.

Lemma invmod_range (a : Z) : 0 <= Z.invmod a n < n.
Proof.
  pose proof (order_ge_2 curve laws) as Hn.
  unfold Z.invmod. apply Z.mod_pos_bound. lia.
Qed.
End GroupFacts.

(** ** Recovery and verification *)

Section RecoverVerify.
Context {Point : Type} (curve : ecurve.Curve Point) (laws : CurveLaws curve).

#[local] Existing Instances eqm_setoid Zplus_eqm Zminus_eqm Zmult_eqm Zopp_eqm.

Local Abbreviation n := (ecurve.n curve).
Local Abbreviation G := (ecurve.G curve).
Local Abbreviation infinity := (ecurve.infinity curve).
Local Abbreviation add := (ecurve.add curve).
Local Abbreviation negate := (ecurve.negate curve).
Local Abbreviation multiply := (ecurve.multiply curve).

(** [verifyRaw] past its two range checks. *)
Lemma verifyRaw_in_range (e : Z) (signature : ECSignature.t) (Q : Point) :
  let r := ECSignature.r signature in
  let s := ECSignature.s signature in
  0 < r < n -> 0 < s < n ->
  verifyRaw curve e signature Q =
  let c := Z.invmod s n in
  let R := ecurve.multiplyTwo curve G ((e * c) mod n) Q ((r * c) mod n) in
  if ecurve.isInfinity curve R then Normal false
  else match ecurve.affineX curve R with
       | Some xR => Normal (xR mod n =? r)
       | None => Throw TypeError
       end.
Proof.
  intros r s Hr Hs. unfold verifyRaw. fold r s.
  rewrite !out_of_range_test, !range_test_true by lia. cbn [negb].
  rewrite modInverse_nonzero by lia. cbn [bind]. rewrite !mod_eq by lia.
  cbv zeta. destruct (ecurve.isInfinity curve _); [reflexivity | ].
  destruct (ecurve.affineX curve _); [ | reflexivity].
  rewrite mod_eq by lia. reflexivity.
Qed.

(** [recoverPubKey] returned: what was checked and computed on the way. *)
Lemma recoverPubKey_returned (e : Z) (signature : ECSignature.t) (i : Z) (Q : Point) :
  recoverPubKey curve e signature i = Normal Q ->
  let r := ECSignature.r signature in
  let s := ECSignature.s signature in
  0 <= i <= 3 /\ 0 < r < n /\ 0 < s < n
  /\ exists R,
       ecurve.pointFromX curve (Z.testbit i 0) (if Z.testbit i 1 then r + n else r) = Some R
       /\ multiply R n = infinity
       /\ Q = multiply (ecurve.multiplyTwo curve R s G ((- e) mod n)) (Z.invmod r n)
       /\ ecurve.validate curve Q = true.
Proof.
  intros Hrec r s.
  assert (Hvalid : 0 <= i <= 3 /\ 0 < r < n /\ 0 < s < n).
  { destruct (Z.le_decidable 0 i), (Z.le_decidable i 3), (Z.lt_decidable 0 r),
      (Z.lt_decidable r n), (Z.lt_decidable 0 s), (Z.lt_decidable s n); try lia;
      destruct (recoverPubKey_invalid curve e signature i ltac:(fold r s; lia))
        as [err [Hthrow _]];
      rewrite Hthrow in Hrec; discriminate Hrec. }
  destruct Hvalid as [Hi [Hr Hs]]. repeat (split; [assumption | ]).
  rewrite recoverPubKey_valid in Hrec by assumption. fold r s in Hrec.
  destruct (ecurve.pointFromX curve _ _) as [R | ]; [ | discriminate Hrec].
  destruct (ecurve.isInfinity curve (multiply R n)) eqn:HnR; [ | discriminate Hrec].
  cbv zeta in Hrec.
  destruct (ecurve.validate curve _) eqn:Hvalidate; [ | discriminate Hrec].
  injection Hrec as <-. exists R.
  split; [reflexivity | ]. split; [apply (isInfinity_spec curve laws); exact HnR | ].
  split; [reflexivity | exact Hvalidate].
Qed.

(** The point that verification rebuilds from a recovered key is the point
    [R] the key was recovered from. *)
Lemma verification_of_recovered (e r s : Z) (R : Point) :
  0 < r < n -> 0 < s < n -> multiply R n = infinity ->
  let Q := multiply (ecurve.multiplyTwo curve R s G ((- e) mod n)) (Z.invmod r n) in
  let c := Z.invmod s n in
  ecurve.multiplyTwo curve G ((e * c) mod n) Q ((r * c) mod n) = R.
Proof.
  intros Hr Hs HR Q c.
  pose proof (order_ge_2 curve laws) as Hn.
  pose proof (invmod_range curve laws s) as Hc. fold c in Hc.
  pose proof (invmod_range curve laws r) as Hri.
  pose proof (Z.mod_pos_bound (- e) n ltac:(lia)) as HeNeg.
  pose proof (Z.mod_pos_bound (e * c) n ltac:(lia)) as Hu1.
  pose proof (Z.mod_pos_bound (r * c) n ltac:(lia)) as Hu2.
  set (W := ecurve.multiplyTwo curve R s G ((- e) mod n)) in *.
  assert (HW : W = add (multiply R s) (multiply G ((- e) mod n)))
    by (apply (multiplyTwo_spec curve laws); lia).
  assert (HWn : multiply W n = infinity).
  { rewrite HW. apply (order_add curve laws); apply (order_multiply curve laws);
      try lia; [exact HR | apply (G_order curve laws)]. }
  rewrite (multiplyTwo_spec curve laws) by lia.
  (* the part on Q is c.W *)
  assert (HQ : multiply Q ((r * c) mod n) = multiply W c).
  { unfold Q. rewrite (multiply_multiply curve laws) by lia.
    apply (multiply_congruent curve laws); try nia; [exact HWn | ].
    setoid_rewrite (eqm_reduce curve laws (r * c)).
    replace (Z.invmod r n * (r * c)) with ((Z.invmod r n * r) * c) by ring.
    setoid_rewrite (eqm_inverse_unit curve laws r Hr).
    replace (1 * c) with c by ring. reflexivity. }
  rewrite HQ, HW, (multiply_add_points curve laws) by lia.
  rewrite !(multiply_multiply curve laws) by lia.
  (* c.s.R is R *)
  assert (HsR : multiply R (s * c) = R).
  { rewrite <- (multiply_one curve laws R) at 2.
    apply (multiply_congruent curve laws); try nia; [exact HR | ].
    rewrite Z.mul_comm. apply (eqm_inverse_unit curve laws s Hs). }
  rewrite HsR.
  (* the parts on G cancel *)
  rewrite (add_comm curve laws R), (add_assoc curve laws).
  rewrite <- (multiply_add curve laws) by nia.
  rewrite (multiply_congruent curve laws G _ 0 (G_order curve laws)); try nia.
  - rewrite (multiply_zero curve laws). apply (add_infinity curve laws).
  - setoid_rewrite (eqm_reduce curve laws (e * c)).
    setoid_rewrite (eqm_reduce curve laws (- e)).
    replace (e * c + - e * c) with 0 by ring. reflexivity.
Qed.

Lemma recovered_point_verifies (e : Z) (signature : ECSignature.t) (i : Z) (Q : Point) :
  AbscissaLaws curve ->
  recoverPubKey curve e signature i = Normal Q ->
  verifyRaw curve e signature Q = Normal true.
Proof.
  intros abscissa Hrec.
  pose proof (order_ge_2 curve laws) as Hn.
  destruct (recoverPubKey_returned e signature i Q Hrec)
    as [Hi [Hr [Hs [R [Hpoint [HnR [HQ _]]]]]]].
  rewrite verifyRaw_in_range by assumption. cbv zeta.
  rewrite HQ, (verification_of_recovered e _ _ R Hr Hs HnR).
  apply (pointFromX_abscissa curve abscissa) in Hpoint.
  assert (Hfinite : R <> infinity).
  { intros Hinf. apply (affineX_defined curve laws) in Hinf.
    rewrite Hinf in Hpoint. discriminate Hpoint. }
  apply (isInfinity_false curve laws) in Hfinite. rewrite Hfinite, Hpoint.
  f_equal. apply Z.eqb_eq.
  destruct (Z.testbit i 1).
  - replace (ECSignature.r signature + n) with (ECSignature.r signature + 1 * n) by ring.
    rewrite Z.mod_add by lia. apply Z.mod_small. lia.
  - apply Z.mod_small. lia.
Qed.
End RecoverVerify.

Section VerifyRecover.
Context {Point : Type} (curve : ecurve.Curve Point) (laws : CurveLaws curve).

#[local] Existing Instances eqm_setoid Zplus_eqm Zminus_eqm Zmult_eqm Zopp_eqm.

Local Abbreviation n := (ecurve.n curve).
Local Abbreviation G := (ecurve.G curve).
Local Abbreviation infinity := (ecurve.infinity curve).
Local Abbreviation add := (ecurve.add curve).
Local Abbreviation multiply := (ecurve.multiply curve).

Lemma verifyRaw_out_of_range (e : Z) (signature : ECSignature.t) (Q : Point) :
  ~ (0 < ECSignature.r signature < n /\ 0 < ECSignature.s signature < n) ->
  verifyRaw curve e signature Q = Normal false.
Proof.
  intros Hbad. unfold verifyRaw. rewrite !out_of_range_test.
  destruct ((0 <? ECSignature.r signature) && (ECSignature.r signature <? n)) eqn:Hr;
    cbn [negb]; [ | reflexivity].
  destruct ((0 <? ECSignature.s signature) && (ECSignature.s signature <? n)) eqn:Hs;
    cbn [negb]; [ | reflexivity].
  exfalso. apply Hbad. apply andb_true_iff in Hr, Hs. lia.
Qed.

(** The key recovered from the point that verification rebuilt from [Q] is
    [Q] itself. *)
Lemma recovery_of_verified (e r s : Z) (Q : Point) :
  0 < r < n -> 0 < s < n -> multiply Q n = infinity ->
  let c := Z.invmod s n in
  let R := ecurve.multiplyTwo curve G ((e * c) mod n) Q ((r * c) mod n) in
  multiply R n = infinity
  /\ multiply (ecurve.multiplyTwo curve R s G ((- e) mod n)) (Z.invmod r n) = Q.
Proof.
  intros Hr Hs HQ c R.
  pose proof (order_ge_2 curve laws) as Hn.
  pose proof (invmod_range curve laws s) as Hc. fold c in Hc.
  pose proof (invmod_range curve laws r) as Hri.
  pose proof (Z.mod_pos_bound (- e) n ltac:(lia)) as HeNeg.
  pose proof (Z.mod_pos_bound (e * c) n ltac:(lia)) as Hu1.
  pose proof (Z.mod_pos_bound (r * c) n ltac:(lia)) as Hu2.
  assert (HR : R = add (multiply G ((e * c) mod n)) (multiply Q ((r * c) mod n)))
    by (apply (multiplyTwo_spec curve laws); lia).
  assert (HRn : multiply R n = infinity).
  { rewrite HR. apply (order_add curve laws); apply (order_multiply curve laws);
      try lia; [apply (G_order curve laws) | exact HQ]. }
  split; [exact HRn | ].
  set (u1 := (e * c) mod n) in *. set (u2 := (r * c) mod n) in *.
  assert (Hcs : eqm n (c * s) 1) by apply (eqm_inverse_unit curve laws s Hs).
  assert (HRs : multiply R s = add (multiply G (u1 * s)) (multiply Q (u2 * s))).
  { rewrite HR, (multiply_add_points curve laws) by lia.
    rewrite !(multiply_multiply curve laws) by lia. reflexivity. }
  assert (HW : ecurve.multiplyTwo curve R s G ((- e) mod n) = multiply Q (u2 * s)).
  { rewrite (multiplyTwo_spec curve laws) by lia. rewrite HRs.
    rewrite <- (add_assoc curve laws), (add_comm curve laws (multiply Q _)),
      (add_assoc curve laws).
    rewrite <- (multiply_add curve laws) by nia.
    rewrite (multiply_congruent curve laws G _ 0 (G_order curve laws)); try nia.
    - rewrite (multiply_zero curve laws). apply (add_infinity curve laws).
    - unfold u1. setoid_rewrite (eqm_reduce curve laws (e * c)).
      setoid_rewrite (eqm_reduce curve laws (- e)).
      replace (e * c * s + - e) with (e * (c * s) + - e) by ring.
      setoid_rewrite Hcs.
      replace (e * 1 + - e) with 0 by ring. reflexivity. }
  rewrite HW, (multiply_multiply curve laws) by nia.
  rewrite <- (multiply_one curve laws Q) at 2.
  apply (multiply_congruent curve laws); try nia; [exact HQ | ].
  unfold u2. setoid_rewrite (eqm_reduce curve laws (r * c)).
  replace (r * c * s * Z.invmod r n) with ((Z.invmod r n * r) * (c * s)) by ring.
  setoid_rewrite (eqm_inverse_unit curve laws r Hr).
  setoid_rewrite Hcs. reflexivity.
Qed.

Lemma verified_point_recovers (e : Z) (signature : ECSignature.t) (Q : Point) :
  RecoveryLaws curve ->
  let r := ECSignature.r signature in
  let s := ECSignature.s signature in
  let c := Z.invmod s n in
  let R := ecurve.multiplyTwo curve G ((e * c) mod n) Q ((r * c) mod n) in
  multiply Q n = infinity -> Q <> infinity ->
  (forall x, ecurve.affineX curve R = Some x -> 0 <= x < 2 * n) ->
  verifyRaw curve e signature Q = Normal true ->
  exists i, 0 <= i <= 3 /\ recoverPubKey curve e signature i = Normal Q.
Proof.
  intros recovery_laws r s c R HQn HQ Hbound Hverify.
  pose proof (order_ge_2 curve laws) as Hn.
  assert (Hrange : 0 < r < n /\ 0 < s < n).
  { destruct (Z.lt_decidable 0 r), (Z.lt_decidable r n), (Z.lt_decidable 0 s),
      (Z.lt_decidable s n); try lia;
      rewrite verifyRaw_out_of_range in Hverify by (fold r s; lia); discriminate Hverify. }
  destruct Hrange as [Hr Hs].
  rewrite verifyRaw_in_range in Hverify by assumption. cbv zeta in Hverify.
  fold r s c R in Hverify.
  destruct (ecurve.isInfinity curve R); [discriminate Hverify | ].
  destruct (ecurve.affineX curve R) as [x | ] eqn:Hx; [ | discriminate Hverify].
  injection Hverify as Hxr. apply Z.eqb_eq in Hxr.
  specialize (Hbound x eq_refl).
  destruct (pointFromX_complete curve recovery_laws R x Hx) as [isOdd Hpoint].
  destruct (recovery_of_verified e r s Q Hr Hs HQn) as [HRn Hrecovered].
  fold c R in HRn, Hrecovered.
  pose proof (Z.div_mod x n ltac:(lia)) as Hdiv. rewrite Hxr in Hdiv.
  assert (Hq : x / n = 0 \/ x / n = 1).
  { assert (0 <= x / n) by (apply Z.div_pos; lia).
    assert (x / n < 2) by (apply Z.div_lt_upper_bound; lia). lia. }
  exists ((if isOdd then 1 else 0) + 2 * (x / n)).
  split; [destruct isOdd, Hq as [-> | ->]; lia | ].
  rewrite recoverPubKey_valid by (try assumption; destruct isOdd, Hq as [-> | ->]; lia).
  fold r s.
  replace (Z.testbit ((if isOdd then 1 else 0) + 2 * (x / n)) 0) with isOdd
    by (destruct isOdd, Hq as [-> | ->]; reflexivity).
  replace (if Z.testbit ((if isOdd then 1 else 0) + 2 * (x / n)) 1 then r + n else r) with x
    by (destruct isOdd, Hq as [Hq | Hq]; rewrite Hq in *; cbn; lia).
  rewrite Hpoint, HRn.
  replace (ecurve.isInfinity curve infinity) with true
    by (symmetry; apply (isInfinity_spec curve laws); reflexivity).
  cbv zeta. rewrite Hrecovered.
  rewrite (validate_complete curve recovery_laws Q HQ). reflexivity.
Qed.
End VerifyRecover.

Lemma toy_abscissa_laws : AbscissaLaws Toy.curve.
Proof.
  constructor. cbn. intros isOdd x R. unfold Toy.pointFromX.
  destruct (Z.leb_spec 0 x); [ | discriminate]. destruct (Z.ltb_spec x Toy.p); [ | discriminate].
  cbn [andb].
  assert (Hcases : x = 0 \/ x = 1 \/ x = 2 \/ x = 3 \/ x = 4 \/ x = 5 \/ x = 6 \/ x = 7
                   \/ x = 8 \/ x = 9 \/ x = 10 \/ x = 11 \/ x = 12 \/ x = 13 \/ x = 14
                   \/ x = 15 \/ x = 16 \/ x = 17 \/ x = 18) by (unfold Toy.p in *; lia).
  repeat (destruct Hcases as [-> | Hcases];
          [destruct isOdd; vm_compute; intros HR; try discriminate HR;
           injection HR as <-; reflexivity | ]).
  subst x. destruct isOdd; vm_compute; intros HR; try discriminate HR;
    injection HR as <-; reflexivity.
Qed.

Lemma toy_order (P : Toy.point) : Toy.multiply P 13 = Toy.Inf.
Proof. destruct P; vm_compute; reflexivity. Qed.

Lemma toy_abscissa_bound (P : Toy.point) (x : Z) : Toy.affineX P = Some x -> 0 <= x < 2 * 13.
Proof. destruct P; cbn; intros H; try discriminate H; injection H as <-; lia. Qed.

(** X1. A point returned by [recoverPubKey] verifies the signature it was
    recovered from, for the same message integer. *)
Theorem recovered_key_verifies {Point : Type} (curve : ecurve.Curve Point)
    (e : Z) (signature : ECSignature.t) (i : Z) (Q : Point) :
  CurveLaws curve -> AbscissaLaws curve ->
  recoverPubKey curve e signature i = Normal Q ->
  verifyRaw curve e signature Q = Normal true.
Proof.
  intros laws abscissa. apply (recovered_point_verifies curve laws); exact abscissa.
Qed.

Lemma recovered_key_verifies_witness :
  recoverPubKey Toy.curve 2 (ECSignature.new 3 3) 3 = Normal Toy.P14_7
  /\ verifyRaw Toy.curve 2 (ECSignature.new 3 3) Toy.P14_7 = Normal true.
Proof.
  split; [vm_compute; reflexivity | ].
  apply (recovered_key_verifies Toy.curve 2 (ECSignature.new 3 3) 3 Toy.P14_7
           toy_curve_laws toy_abscissa_laws).
  vm_compute. reflexivity.
Defined.

(** X2. [calcPubKeyRecoveryParam] returns an id only for a signature that
    verifies under the point it was given. *)
Theorem recovery_param_implies_valid {Point : Type} (curve : ecurve.Curve Point)
    (e : Z) (signature : ECSignature.t) (Q : Point) (i : Z) :
  CurveLaws curve -> AbscissaLaws curve ->
  calcPubKeyRecoveryParam curve e signature Q = Normal i ->
  verifyRaw curve e signature Q = Normal true.
Proof.
  intros laws abscissa Hcalc.
  apply recovery_search_returns in Hcalc.
  destruct Hcalc as [_ [_ [Qprime [Hrec Heq]]]].
  apply (equals_spec curve laws) in Heq. subst Qprime.
  exact (recovered_point_verifies curve laws e signature i Q abscissa Hrec).
Qed.

Lemma recovery_param_implies_valid_witness :
  calcPubKeyRecoveryParam Toy.curve 5 (ECSignature.new 5 5) (Toy.publicKey 7) = Normal 0
  /\ verifyRaw Toy.curve 5 (ECSignature.new 5 5) (Toy.publicKey 7) = Normal true.
Proof.
  split; [vm_compute; reflexivity | ].
  apply (recovery_param_implies_valid Toy.curve 5 (ECSignature.new 5 5) (Toy.publicKey 7) 0
           toy_curve_laws toy_abscissa_laws).
  vm_compute. reflexivity.
Defined.

(** X3. Conversely, when [verifyRaw] accepts a signature under a finite
    point [Q] of order [n], and the abscissa of the point it rebuilt is
    below [2n], one of the four ids makes [recoverPubKey] return [Q]. *)
Theorem verified_key_is_recoverable {Point : Type} (curve : ecurve.Curve Point)
    (e : Z) (signature : ECSignature.t) (Q : Point) :
  CurveLaws curve -> RecoveryLaws curve ->
  let n := ecurve.n curve in
  let r := ECSignature.r signature in
  let c := Z.invmod (ECSignature.s signature) n in
  let R := ecurve.multiplyTwo curve (ecurve.G curve) ((e * c) mod n) Q ((r * c) mod n) in
  ecurve.multiply curve Q n = ecurve.infinity curve ->
  Q <> ecurve.infinity curve ->
  (forall x, ecurve.affineX curve R = Some x -> 0 <= x < 2 * n) ->
  verifyRaw curve e signature Q = Normal true ->
  exists i, 0 <= i <= 3 /\ recoverPubKey curve e signature i = Normal Q.
Proof.
  intros laws recovery_laws n r c R.
  exact (verified_point_recovers curve laws e signature Q recovery_laws).
Qed.

Lemma verified_key_is_recoverable_witness :
  verifyRaw Toy.curve 7 (ECSignature.new 3 6) (Toy.publicKey 1) = Normal true
  /\ exists i, 0 <= i <= 3
               /\ recoverPubKey Toy.curve 7 (ECSignature.new 3 6) i = Normal (Toy.publicKey 1).
Proof.
  split; [vm_compute; reflexivity | ].
  apply (verified_key_is_recoverable Toy.curve 7 (ECSignature.new 3 6) (Toy.publicKey 1)
           toy_curve_laws toy_recovery_laws).
  - apply toy_order.
  - vm_compute. discriminate.
  - intros x. apply toy_abscissa_bound.
  - vm_compute. reflexivity.
Defined.

(** ** The two signs of [s] *)

Section NegatedS.
Context {Point : Type} (curve : ecurve.Curve Point) (laws : CurveLaws curve).

#[local] Existing Instances eqm_setoid Zplus_eqm Zminus_eqm Zmult_eqm Zopp_eqm.

Local Abbreviation n := (ecurve.n curve).
Local Abbreviation G := (ecurve.G curve).
Local Abbreviation infinity := (ecurve.infinity curve).
Local Abbreviation add := (ecurve.add curve).
Local Abbreviation negate := (ecurve.negate curve).
Local Abbreviation multiply := (ecurve.multiply curve).

Lemma isInfinity_negate (P : Point) :
  ecurve.isInfinity curve (negate P) = ecurve.isInfinity curve P.
Proof.
  destruct (ecurve.isInfinity curve P) eqn:HP.
  - apply (isInfinity_spec curve laws) in HP. apply (isInfinity_spec curve laws).
    apply (negate_finite curve laws). exact HP.
  - apply (isInfinity_false curve laws) in HP. apply (isInfinity_false curve laws).
    intros H. apply HP, (negate_finite curve laws). exact H.
Qed.

(** The inverse of [n - s] is the opposite of the inverse of [s]. *)
Lemma invmod_negated (s : Z) :
  0 < s < n -> eqm n (Z.invmod (n - s) n) (- Z.invmod s n).
Proof.
  intros Hs.
  pose proof (eqm_inverse_unit curve laws s Hs) as Hcs.
  pose proof (eqm_inverse_unit curve laws (n - s) ltac:(lia)) as Hcs'.
  set (c := Z.invmod s n) in *. set (c' := Z.invmod (n - s) n) in *.
  transitivity (c' * (c * s)); [setoid_rewrite Hcs; replace (c' * 1) with c' by ring; reflexivity | ].
  replace (c' * (c * s)) with (n * (c' * c) + (c' * (n - s)) * (- c)) by ring.
  setoid_rewrite (eqm_multiple n (c' * c)). setoid_rewrite Hcs'.
  replace (0 + 1 * - c) with (- c) by ring. reflexivity.
Qed.

Lemma verification_point_negated (e r s : Z) (Q : Point) :
  0 < s < n -> multiply Q n = infinity ->
  ecurve.multiplyTwo curve G ((e * Z.invmod (n - s) n) mod n) Q ((r * Z.invmod (n - s) n) mod n)
  = negate (ecurve.multiplyTwo curve G ((e * Z.invmod s n) mod n) Q ((r * Z.invmod s n) mod n)).
Proof.
  intros Hs HQ. pose proof (order_ge_2 curve laws) as Hn.
  pose proof (invmod_negated s Hs) as Hneg.
  set (c := Z.invmod s n) in *. set (c' := Z.invmod (n - s) n) in *.
  pose proof (Z.mod_pos_bound (e * c) n ltac:(lia)).
  pose proof (Z.mod_pos_bound (r * c) n ltac:(lia)).
  pose proof (Z.mod_pos_bound (e * c') n ltac:(lia)).
  pose proof (Z.mod_pos_bound (r * c') n ltac:(lia)).
  assert (Hopp : forall a, eqm n ((a * c') mod n + (a * c) mod n) 0).
  { intros a. setoid_rewrite (eqm_reduce curve laws (a * c')).
    setoid_rewrite (eqm_reduce curve laws (a * c)). setoid_rewrite Hneg.
    replace (a * - c + a * c) with 0 by ring. reflexivity. }
  rewrite !(multiplyTwo_spec curve laws) by lia.
  rewrite (negate_add curve laws).
  rewrite (multiply_opposite curve laws G _ ((e * c) mod n) (G_order curve laws))
    by (try lia; apply Hopp).
  rewrite (multiply_opposite curve laws Q _ ((r * c) mod n) HQ) by (try lia; apply Hopp).
  reflexivity.
Qed.

Lemma verifyRaw_negated (e r s : Z) (Q : Point) :
  0 < s < n -> multiply Q n = infinity ->
  verifyRaw curve e (ECSignature.new r (n - s)) Q = verifyRaw curve e (ECSignature.new r s) Q.
Proof.
  intros Hs HQ.
  destruct (Z.lt_decidable 0 r) as [Hr0 | Hr0];
    [ | rewrite !verifyRaw_out_of_range by (cbn; lia); reflexivity].
  destruct (Z.lt_decidable r n) as [Hrn | Hrn];
    [ | rewrite !verifyRaw_out_of_range by (cbn; lia); reflexivity].
  rewrite !verifyRaw_in_range by (cbn; lia). cbn [ECSignature.r ECSignature.s]. cbv zeta.
  rewrite (verification_point_negated e r s Q Hs HQ).
  rewrite isInfinity_negate, (affineX_negate curve laws). reflexivity.
Qed.

Lemma pointFromX_other_parity (recovery_laws : RecoveryLaws curve) (isOdd : bool) (x : Z) :
  ecurve.pointFromX curve (negb isOdd) x
  = option_map negate (ecurve.pointFromX curve isOdd x).
Proof.
  destruct (ecurve.pointFromX curve isOdd x) as [R | ] eqn:HR; cbn [option_map].
  - apply (pointFromX_opposite curve recovery_laws). exact HR.
  - destruct (ecurve.pointFromX curve (negb isOdd) x) as [R' | ] eqn:HR'; [ | reflexivity].
    apply (pointFromX_opposite curve recovery_laws) in HR'.
    rewrite negb_involutive, HR in HR'. discriminate HR'.
Qed.

Lemma recoverPubKey_negated (recovery_laws : RecoveryLaws curve) (e r s i : Z) :
  0 <= i <= 3 -> 0 < s < n ->
  recoverPubKey curve e (ECSignature.new r (n - s)) (Z.lxor i 1)
  = recoverPubKey curve e (ECSignature.new r s) i.
Proof.
  intros Hi Hs. pose proof (order_ge_2 curve laws) as Hn.
  assert (Hcases : i = 0 \/ i = 1 \/ i = 2 \/ i = 3) by lia.
  assert (Hi' : 0 <= Z.lxor i 1 <= 3)
    by (destruct Hcases as [-> | [-> | [-> | ->]]]; cbn; lia).
  assert (Hbit0 : Z.testbit (Z.lxor i 1) 0 = negb (Z.testbit i 0))
    by (destruct Hcases as [-> | [-> | [-> | ->]]]; reflexivity).
  assert (Hbit1 : Z.testbit (Z.lxor i 1) 1 = Z.testbit i 1)
    by (destruct Hcases as [-> | [-> | [-> | ->]]]; reflexivity).
  destruct (Z.lt_decidable 0 r) as [Hr0 | Hr0], (Z.lt_decidable r n) as [Hrn | Hrn];
    try (unfold recoverPubKey; cbn [ECSignature.r ECSignature.s];
         rewrite !land_3_test, !in_range_test;
         replace ((0 <=? i) && (i <=? 3)) with true by (symmetry; apply andb_true_iff; lia);
         replace ((0 <=? Z.lxor i 1) && (Z.lxor i 1 <=? 3)) with true
           by (symmetry; apply andb_true_iff; lia);
         rewrite (range_test_false r n) by lia; reflexivity).
  rewrite !recoverPubKey_valid by (cbn; lia). cbn [ECSignature.r ECSignature.s].
  rewrite Hbit0, Hbit1, (pointFromX_other_parity recovery_laws).
  destruct (ecurve.pointFromX curve (Z.testbit i 0) _) as [R | ]; cbn [option_map];
    [ | reflexivity].
  rewrite (multiply_negate curve laws) by lia. rewrite isInfinity_negate.
  destruct (ecurve.isInfinity curve (multiply R n)) eqn:HnR; [ | reflexivity].
  apply (isInfinity_spec curve laws) in HnR.
  pose proof (Z.mod_pos_bound (- e) n ltac:(lia)).
  replace (ecurve.multiplyTwo curve (negate R) (n - s) G ((- e) mod n))
    with (ecurve.multiplyTwo curve R s G ((- e) mod n)); [reflexivity | ].
  rewrite !(multiplyTwo_spec curve laws) by lia. f_equal.
  rewrite (multiply_negate curve laws) by lia.
  rewrite (multiply_opposite curve laws R (n - s) s HnR) by
    (try lia; replace (n - s + s) with (n * 1) by ring; apply eqm_multiple).
  symmetry. apply (negate_involutive curve laws).
Qed.

(** With the point at infinity as the key, [verifyRaw] accepts a signature
    made up from any nonce. *)
Lemma verifyRaw_infinity (e k x : Z) :
  0 < k < n -> e mod n <> 0 ->
  ecurve.affineX curve (multiply G k) = Some x -> x mod n <> 0 ->
  verifyRaw curve e (ECSignature.new (x mod n) ((e * Z.invmod k n) mod n)) infinity
  = Normal true.
Proof.
  intros Hk He Hx Hr. pose proof (order_ge_2 curve laws) as Hn.
  set (s := (e * Z.invmod k n) mod n).
  pose proof (Z.mod_pos_bound x n ltac:(lia)) as Hrb.
  pose proof (Z.mod_pos_bound (e * Z.invmod k n) n ltac:(lia)) as Hsb. fold s in Hsb.
  pose proof (eqm_inverse_unit curve laws k Hk) as Hkk.
  assert (Hs : s <> 0).
  { intros Hs0. apply He.
    assert (H0 : eqm n (e * Z.invmod k n) 0)
      by (unfold eqm; fold s; rewrite Hs0, Z.mod_0_l by lia; reflexivity).
    assert (H1 : eqm n (e * (Z.invmod k n * k)) (0 * k))
      by (replace (e * (Z.invmod k n * k)) with (e * Z.invmod k n * k) by ring;
          setoid_rewrite H0; reflexivity).
    setoid_rewrite Hkk in H1. unfold eqm in H1.
    rewrite Z.mul_1_r, Z.mul_0_l, Z.mod_0_l in H1 by lia. exact H1. }
  pose proof (eqm_inverse_unit curve laws s ltac:(lia)) as Hcs.
  set (c := Z.invmod s n) in *.
  rewrite verifyRaw_in_range by (cbn; fold s; lia).
  cbn [ECSignature.r ECSignature.s]. cbv zeta. fold s c.
  pose proof (Z.mod_pos_bound (e * c) n ltac:(lia)).
  pose proof (Z.mod_pos_bound (x mod n * c) n ltac:(lia)).
  rewrite (multiplyTwo_spec curve laws) by lia.
  rewrite (multiply_infinity curve laws) by lia.
  rewrite (add_comm curve laws), (add_infinity curve laws).
  assert (Hu1 : (e * c) mod n = k).
  { transitivity (k mod n); [ | apply Z.mod_small; lia]. change (eqm n (e * c) k).
    transitivity (e * c * (Z.invmod k n * k));
      [setoid_rewrite Hkk; replace (e * c * 1) with (e * c) by ring; reflexivity | ].
    replace (e * c * (Z.invmod k n * k)) with (c * (e * Z.invmod k n) * k) by ring.
    setoid_rewrite <- (eqm_reduce curve laws (e * Z.invmod k n)). fold s.
    setoid_rewrite Hcs. replace (1 * k) with k by ring. reflexivity. }
  rewrite Hu1.
  replace (ecurve.isInfinity curve (multiply G k)) with false
    by (symmetry; apply (isInfinity_false curve laws), (multiply_G_finite curve laws); exact Hk).
  rewrite Hx, Z.eqb_refl. reflexivity.
Qed.
End NegatedS.

(** [verifyRaw] and [recoverPubKey] see the message integer modulo [n]. *)
Lemma message_integer_reduced {Point : Type} (curve : ecurve.Curve Point)
    (e e' : Z) (signature : ECSignature.t) :
  e mod ecurve.n curve = e' mod ecurve.n curve ->
  (forall Q, verifyRaw curve e signature Q = verifyRaw curve e' signature Q)
  /\ (forall i, recoverPubKey curve e signature i = recoverPubKey curve e' signature i).
Proof.
  intros Heq. set (n := ecurve.n curve) in *. split.
  - intros Q.
    destruct (Z.lt_decidable 0 (ECSignature.r signature)),
      (Z.lt_decidable (ECSignature.r signature) n),
      (Z.lt_decidable 0 (ECSignature.s signature)),
      (Z.lt_decidable (ECSignature.s signature) n);
      try (rewrite !verifyRaw_out_of_range by (fold n; lia); reflexivity).
    rewrite !verifyRaw_in_range by (fold n; lia). cbv zeta. fold n.
    rewrite (Z.mul_mod e) by lia. rewrite (Z.mul_mod e') by lia. rewrite Heq. reflexivity.
  - intros i. unfold recoverPubKey. fold n.
    destruct (assert (Z.land i 3 =? i) _); cbn [bind]; try reflexivity.
    rewrite !in_range_test.
    destruct ((0 <? ECSignature.r signature) && (ECSignature.r signature <? n)) eqn:Hr;
      cbn [assert bind]; [ | reflexivity].
    destruct (assert _ InvalidSValue); cbn [bind]; try reflexivity.
    apply andb_true_iff in Hr.
    assert (Hn : 0 < n) by lia.
    rewrite !mod_eq by exact Hn.
    assert (Hopp : (- e) mod n = (- e') mod n).
    { rewrite <- (Z.sub_0_l e), <- (Z.sub_0_l e').
      rewrite (Zminus_mod 0 e), (Zminus_mod 0 e'), Heq. reflexivity. }
    rewrite Hopp. reflexivity.
Qed.

(** X4. [verifyRaw] does not ask for the low-S form: under a key of order
    [n] it gives the same answer for [(r, n - s)] as for [(r, s)]. *)
Theorem verifyRaw_accepts_both_signs {Point : Type} (curve : ecurve.Curve Point)
    (e r s : Z) (Q : Point) :
  CurveLaws curve ->
  0 < s < ecurve.n curve ->
  ecurve.multiply curve Q (ecurve.n curve) = ecurve.infinity curve ->
  verifyRaw curve e (ECSignature.new r (ecurve.n curve - s)) Q
  = verifyRaw curve e (ECSignature.new r s) Q.
Proof. intros laws. apply (verifyRaw_negated curve laws). Qed.

Lemma verifyRaw_accepts_both_signs_witness :
  0 < 5 < ecurve.n Toy.curve
  /\ Toy.multiply (Toy.publicKey 7) 13 = Toy.Inf
  /\ verifyRaw Toy.curve 5 (ECSignature.new 5 5) (Toy.publicKey 7) = Normal true
  /\ verifyRaw Toy.curve 5 (ECSignature.new 5 (13 - 5)) (Toy.publicKey 7) = Normal true.
Proof.
  split; [cbn; lia | ]. split; [apply toy_order | ].
  assert (Hlow : verifyRaw Toy.curve 5 (ECSignature.new 5 5) (Toy.publicKey 7) = Normal true)
    by (vm_compute; reflexivity).
  split; [exact Hlow | ]. rewrite <- Hlow.
  apply (verifyRaw_accepts_both_signs Toy.curve 5 5 5 (Toy.publicKey 7) toy_curve_laws).
  - cbn. lia.
  - apply toy_order.
Defined.

(** X5. Replacing [s] by [n - s] flips bit 0 of the recovery id:
    [recoverPubKey] gives for [(r, n - s)] and the id [i xor 1] what it
    gives for [(r, s)] and the id [i]. *)
Theorem recoverPubKey_negated_s {Point : Type} (curve : ecurve.Curve Point)
    (e r s i : Z) :
  CurveLaws curve -> RecoveryLaws curve ->
  0 <= i <= 3 -> 0 < s < ecurve.n curve ->
  recoverPubKey curve e (ECSignature.new r (ecurve.n curve - s)) (Z.lxor i 1)
  = recoverPubKey curve e (ECSignature.new r s) i.
Proof. intros laws recovery_laws. apply (recoverPubKey_negated curve laws recovery_laws). Qed.

Lemma recoverPubKey_negated_s_witness :
  0 <= 0 <= 3 /\ 0 < 5 < ecurve.n Toy.curve
  /\ recoverPubKey Toy.curve 5 (ECSignature.new 5 5) 0 = Normal (Toy.publicKey 7)
  /\ recoverPubKey Toy.curve 5 (ECSignature.new 5 (13 - 5)) 1 = Normal (Toy.publicKey 7).
Proof.
  split; [lia | ]. split; [cbn; lia | ].
  assert (Hlow : recoverPubKey Toy.curve 5 (ECSignature.new 5 5) 0 = Normal (Toy.publicKey 7))
    by (vm_compute; reflexivity).
  split; [exact Hlow | ]. rewrite <- Hlow.
  apply (recoverPubKey_negated_s Toy.curve 5 5 5 0 toy_curve_laws toy_recovery_laws).
  - lia.
  - cbn. lia.
Defined.

(** X6. [verifyRaw] and [recoverPubKey] depend on the message integer only
    through its residue modulo [n]: two integers with the same residue are
    interchangeable. *)
Theorem message_integer_modulo {Point : Type} (curve : ecurve.Curve Point)
    (e e' : Z) (signature : ECSignature.t) :
  e mod ecurve.n curve = e' mod ecurve.n curve ->
  (forall Q, verifyRaw curve e signature Q = verifyRaw curve e' signature Q)
  /\ (forall i, recoverPubKey curve e signature i = recoverPubKey curve e' signature i).
Proof. apply message_integer_reduced. Qed.

Lemma message_integer_modulo_witness :
  5 mod ecurve.n Toy.curve = 18 mod ecurve.n Toy.curve
  /\ verifyRaw Toy.curve 18 (ECSignature.new 5 5) (Toy.publicKey 7) = Normal true
  /\ recoverPubKey Toy.curve 18 (ECSignature.new 5 5) 0 = Normal (Toy.publicKey 7).
Proof.
  destruct (message_integer_modulo Toy.curve 5 18 (ECSignature.new 5 5) eq_refl)
    as [Hverify Hrecover].
  split; [reflexivity | ]. split.
  - rewrite <- Hverify. vm_compute. reflexivity.
  - rewrite <- Hrecover. vm_compute. reflexivity.
Defined.

(** X7. [verifyRaw] does not validate the key: with the point at infinity
    as [Q], and for any message integer that is not a multiple of [n], the
    pair [r = (k.G).x mod n], [s = e k^-1 mod n] built from any nonce [k]
    with [r <> 0] is accepted. *)
Theorem verifyRaw_accepts_infinity_key {Point : Type} (curve : ecurve.Curve Point)
    (e k x : Z) :
  CurveLaws curve ->
  0 < k < ecurve.n curve ->
  e mod ecurve.n curve <> 0 ->
  ecurve.affineX curve (ecurve.multiply curve (ecurve.G curve) k) = Some x ->
  x mod ecurve.n curve <> 0 ->
  verifyRaw curve e
    (ECSignature.new (x mod ecurve.n curve) ((e * Z.invmod k (ecurve.n curve)) mod ecurve.n curve))
    (ecurve.infinity curve)
  = Normal true.
Proof. intros laws. apply (verifyRaw_infinity curve laws). Qed.

Lemma verifyRaw_accepts_infinity_key_witness :
  0 < 3 < ecurve.n Toy.curve
  /\ 5 mod ecurve.n Toy.curve <> 0
  /\ Toy.affineX (Toy.multiply Toy.P3_4 3) = Some 6
  /\ 6 mod ecurve.n Toy.curve <> 0
  /\ verifyRaw Toy.curve 5 (ECSignature.new 6 6) Toy.Inf = Normal true.
Proof.
  split; [cbn; lia | ]. split; [cbn; discriminate | ].
  split; [vm_compute; reflexivity | ]. split; [cbn; discriminate | ].
  apply (verifyRaw_accepts_infinity_key Toy.curve 5 3 6 toy_curve_laws).
  - cbn. lia.
  - cbn. discriminate.
  - vm_compute. reflexivity.
  - cbn. discriminate.
Defined.

(** ** More on [sign] and [deterministicGenerateK] *)

Section SignFacts.
Context {hash_primitives : HashPrimitives} {Point : Type}.
Context (curve : ecurve.Curve Point).

Local Abbreviation n := (ecurve.n curve).
Local Abbreviation G := (ecurve.G curve).

(** The loop with an observing callback: what it has recorded when it
    returns. *)
Lemma generateK_loop_observed (accept : Z -> bool) (fuel : nat) :
  forall (k v : Buffer.t) (T0 : Z) (seen : list Z) (T : Z) (seen' : list Z),
    generateK_loop fuel curve (observing accept) k v T0 seen = Normal (T, seen') ->
    exists tried,
      seen' = T :: tried ++ seen
      /\ 0 < T < n /\ accept T = true
      /\ Forall (fun t => 0 < t < n /\ accept t = false) tried.
Proof.
  induction fuel as [ | fuel IH]; intros k v T0 seen T seen' H; [discriminate H | ].
  rewrite generateK_loop_unfold in H. cbv zeta in H.
  destruct ((0 <? T0) && (T0 <? n)) eqn:Hrange.
  - unfold observing at 1 in H. destruct (accept T0) eqn:Haccept.
    + injection H as <- <-. exists []. apply andb_true_iff in Hrange.
      repeat split; try assumption; try lia. constructor.
    + apply IH in H. destruct H as [tried [-> [HT [HaccT Htried]]]].
      exists (tried ++ [T0]). rewrite <- app_assoc. cbn [app].
      repeat split; try assumption; try lia.
      apply Forall_app. split; [exact Htried | ].
      constructor; [ | constructor]. apply andb_true_iff in Hrange. split; [lia | exact Haccept].
  - apply IH in H. exact H.
Qed.

(** On a lawful curve the verdict of the callback of [sign] on a scalar of
    [[1, n-1]] is [usable_nonce]. *)
Lemma sign_callback_verdict (laws : CurveLaws curve) (e d k : Z) :
  0 < k < n -> answers (sign_callback curve e d) k (usable_nonce curve e d k).
Proof.
  intros Hk vars.
  pose proof (multiply_G_finite curve laws k Hk) as Hfinite.
  destruct (affineX_finite curve laws _ Hfinite) as [x Hx].
  apply (isInfinity_false curve laws) in Hfinite.
  unfold sign_callback, usable_nonce.
  rewrite Hfinite, Hx, !signum_zero, !mod_eq, (range_test_true k n Hk) by lia.
  cbn [andb].
  destruct (x mod n =? 0); cbn [negb andb]; [eexists; reflexivity | ].
  rewrite modInverse_nonzero by lia. cbn [bind].
  rewrite !signum_zero, !mod_eq by lia.
  destruct (_ =? 0); cbn [negb]; eexists; reflexivity.
Qed.

Lemma generateK_loop_sign_no_throw (laws : CurveLaws curve) (e d : Z) (fuel : nat) :
  forall (k v : Buffer.t) (T : Z) (vars : sign_vars) (err : Error),
    generateK_loop fuel curve (sign_callback curve e d) k v T vars <> Throw err.
Proof.
  induction fuel as [ | fuel IH]; intros k v T vars err; [discriminate | ].
  rewrite generateK_loop_unfold. cbv zeta.
  destruct ((0 <? T) && (T <? n)) eqn:Hrange; [ | apply IH].
  apply andb_true_iff in Hrange.
  destruct (sign_callback_verdict laws e d T ltac:(lia) vars) as [vars' ->].
  destruct (usable_nonce curve e d T); [discriminate | apply IH].
Qed.

Lemma sign_throws (laws : CurveLaws curve) (fuel : nat) (hash : Buffer.t) (d : Z)
    (nonce : option N) (err : Error) :
  sign fuel curve hash d nonce = Throw err ->
  err = HashMustBe256Bit /\ (truthy nonce = false -> Buffer.length hash <> 32).
Proof.
  unfold sign. intros H.
  destruct (deterministicGenerateK fuel curve hash d _ nonce _) as [[T vars] | err' | ] eqn:HK;
    cbn [bind] in H; try discriminate H.
  - apply deterministicGenerateK_accepts in HK. destruct HK as [HT [vars0 Hcb]].
    apply sign_callback_accepts in Hcb; [ | exact HT].
    destruct Hcb as [_ [x [_ [_ [_ ->]]]]]. discriminate H.
  - injection H as <-. unfold deterministicGenerateK in HK.
    destruct (truthy nonce).
    + destruct (assert _ _) as [[] | err0 | ] eqn:Hassert; cbn [bind] in HK.
      * exfalso. exact (generateK_loop_sign_no_throw laws _ d fuel _ _ _ _ _ HK).
      * injection HK as <-. unfold assert in Hassert.
        destruct (_ =? 32); [discriminate Hassert | ]. injection Hassert as <-.
        split; [reflexivity | discriminate].
      * discriminate HK.
    + destruct (Z.eqb_spec (Buffer.length hash) 32) as [Heq | Hne]; cbn [assert bind] in HK.
      * exfalso. exact (generateK_loop_sign_no_throw laws _ d fuel _ _ _ _ _ HK).
      * injection HK as <-. split; [reflexivity | intros _; exact Hne].
Qed.

Lemma sign_first_usable (laws : CurveLaws curve) (hash : Buffer.t) (d : Z) (j fuel : nat) :
  Buffer.length hash = 32 ->
  let e := BigInteger.fromBuffer hash in
  let k := fst (loop_entry hash d) in
  let v := snd (loop_entry hash d) in
  (forall m, (m < j)%nat -> usable_nonce curve e d (candidate m k v) = false) ->
  usable_nonce curve e d (candidate j k v) = true ->
  (j < fuel)%nat ->
  exists signature,
    signature_with_nonce curve e d (candidate j k v) = Some signature
    /\ sign fuel curve hash d None = Normal signature.
Proof.
  intros Hlen e k v Hbefore Husable Hfuel.
  assert (Hrange : 0 < candidate j k v < n).
  { unfold usable_nonce in Husable. apply andb_true_iff in Husable.
    destruct Husable as [Hr _]. apply andb_true_iff in Hr. lia. }
  assert (Hrejected : forall m, (m < j)%nat ->
                        rejected n (sign_callback curve e d) (candidate m k v)).
  { intros m Hm.
    destruct (Z.lt_decidable 0 (candidate m k v)) as [Hpos | Hneg]; [ | left; lia].
    destruct (Z.lt_decidable (candidate m k v) n) as [Hlt | Hge]; [ | left; lia].
    right. rewrite <- (Hbefore m Hm). apply (sign_callback_verdict laws). lia. }
  assert (Haccept : answers (sign_callback curve e d) (candidate j k v) true)
    by (rewrite <- Husable; apply (sign_callback_verdict laws); exact Hrange).
  destruct (generateK_loop_enough_fuel curve (sign_callback curve e d) j k v
              {| var_r := None; var_s := None |} fuel Hrejected Hrange Haccept Hfuel)
    as [vars Hloop].
  unfold sign. rewrite deterministicGenerateK_unfold by exact Hlen.
  fold e k v. rewrite Hloop. cbn [bind].
  apply generateK_loop_accepts in Hloop. destruct Hloop as [_ [vars1 Hcb]].
  apply sign_callback_accepts in Hcb; [ | exact Hrange].
  destruct Hcb as [_ [x [Hx [_ [_ ->]]]]]. cbn [var_r var_s].
  unfold signature_with_nonce. rewrite Hx. cbv zeta.
  rewrite compareTo_gt. unfold BigInteger.shiftRight.
  rewrite (Z.shiftr_div_pow2 n 1) by lia. change (2 ^ 1) with 2.
  eexists. split; reflexivity.
Qed.
End SignFacts.

(** X8. [deterministicGenerateK] calls its callback only on scalars of
    [[1, n-1]]; every call but the last was answered [false], and the scalar
    it returns is the one of the last call, answered [true]. *)
Theorem deterministicGenerateK_calls {hash_primitives : HashPrimitives} {Point : Type}
    (curve : ecurve.Curve Point) (fuel : nat) (hash : Buffer.t) (d : Z)
    (accept : Z -> bool) (nonce : option N) (T : Z) (seen : list Z) :
  deterministicGenerateK fuel curve hash d (observing accept) nonce [] = Normal (T, seen) ->
  exists tried,
    seen = T :: tried
    /\ 0 < T < ecurve.n curve /\ accept T = true
    /\ Forall (fun t => 0 < t < ecurve.n curve /\ accept t = false) tried.
Proof.
  unfold deterministicGenerateK. intros H.
  destruct (assert _ _) as [[] | err | ]; cbn [bind] in H; try discriminate H.
  apply generateK_loop_observed in H.
  destruct H as [tried [-> H]]. exists tried. rewrite app_nil_r. split; [reflexivity | exact H].
Qed.

Lemma deterministicGenerateK_calls_witness :
  deterministicGenerateK (hash_primitives := Toy.hashes) 8 Toy.curve (Toy.digest 5) 7
    (observing Z.odd) (Some 1%N) [] = Normal (11, [11; 4])
  /\ exists tried,
       [11; 4] = 11 :: tried
       /\ 0 < 11 < ecurve.n Toy.curve /\ Z.odd 11 = true
       /\ Forall (fun t => 0 < t < ecurve.n Toy.curve /\ Z.odd t = false) tried.
Proof.
  split; [vm_compute; reflexivity | ].
  apply (deterministicGenerateK_calls (hash_primitives := Toy.hashes) Toy.curve 8
           (Toy.digest 5) 7 Z.odd (Some 1%N) 11 [11; 4]).
  vm_compute. reflexivity.
Defined.

(** X9. On a lawful curve [sign] throws for one reason only: the digest
    that reaches the length check is not 32 bytes long.  In particular the
    callback never divides by zero and never reads the abscissa of the point
    at infinity. *)
Theorem sign_throws_only_on_length {hash_primitives : HashPrimitives} {Point : Type}
    (curve : ecurve.Curve Point) (fuel : nat) (hash : Buffer.t) (d : Z)
    (nonce : option N) (err : Error) :
  CurveLaws curve ->
  sign fuel curve hash d nonce = Throw err ->
  err = HashMustBe256Bit /\ (truthy nonce = false -> Buffer.length hash <> 32).
Proof. intros laws. apply (sign_throws curve laws). Qed.

Lemma sign_throws_only_on_length_witness :
  sign (hash_primitives := Toy.hashes) 8 Toy.curve (repeat x00 31) 7 None
  = Throw HashMustBe256Bit
  /\ HashMustBe256Bit = HashMustBe256Bit
  /\ (truthy None = false -> Buffer.length (repeat x00 31) <> 32).
Proof.
  split; [vm_compute; reflexivity | ].
  apply (sign_throws_only_on_length (hash_primitives := Toy.hashes) Toy.curve 8
           (repeat x00 31) 7 None HashMustBe256Bit toy_curve_laws).
  vm_compute. reflexivity.
Defined.

(** X10. Called without a nonce on a 32-byte digest, [sign] returns the
    low-S ECDSA signature made with the first candidate of the RFC 6979
    chain that is a usable nonce, as soon as the fuel covers the chain up to
    that candidate. *)
Theorem sign_uses_first_usable_nonce {hash_primitives : HashPrimitives} {Point : Type}
    (curve : ecurve.Curve Point) (hash : Buffer.t) (d : Z) (j fuel : nat) :
  CurveLaws curve ->
  Buffer.length hash = 32 ->
  let e := BigInteger.fromBuffer hash in
  let k := fst (loop_entry hash d) in
  let v := snd (loop_entry hash d) in
  (forall m, (m < j)%nat -> usable_nonce curve e d (candidate m k v) = false) ->
  usable_nonce curve e d (candidate j k v) = true ->
  (j < fuel)%nat ->
  exists signature,
    signature_with_nonce curve e d (candidate j k v) = Some signature
    /\ sign fuel curve hash d None = Normal signature.
Proof. intros laws. apply (sign_first_usable curve laws). Qed.

Lemma sign_uses_first_usable_nonce_witness :
  Buffer.length (Toy.digest 5) = 32
  /\ candidate (hash_primitives := Toy.hashes) 0
       (fst (loop_entry (hash_primitives := Toy.hashes) (Toy.digest 5) 7)) (snd (loop_entry (hash_primitives := Toy.hashes) (Toy.digest 5) 7)) = 0
  /\ candidate (hash_primitives := Toy.hashes) 1
       (fst (loop_entry (hash_primitives := Toy.hashes) (Toy.digest 5) 7)) (snd (loop_entry (hash_primitives := Toy.hashes) (Toy.digest 5) 7)) = 8
  /\ signature_with_nonce Toy.curve 5 7 8 = Some (ECSignature.new 5 5)
  /\ exists signature,
       signature_with_nonce Toy.curve (BigInteger.fromBuffer (Toy.digest 5)) 7
         (candidate (hash_primitives := Toy.hashes) 1
            (fst (loop_entry (hash_primitives := Toy.hashes) (Toy.digest 5) 7)) (snd (loop_entry (hash_primitives := Toy.hashes) (Toy.digest 5) 7)))
       = Some signature
       /\ sign (hash_primitives := Toy.hashes) 2 Toy.curve (Toy.digest 5) 7 None
          = Normal signature.
Proof.
  split; [reflexivity | ]. split; [vm_compute; reflexivity | ].
  split; [vm_compute; reflexivity | ]. split; [vm_compute; reflexivity | ].
  apply (sign_uses_first_usable_nonce (hash_primitives := Toy.hashes) Toy.curve
           (Toy.digest 5) 7 1 2 toy_curve_laws).
  - reflexivity.
  - intros m Hm. assert (m = 0%nat) as -> by lia. vm_compute. reflexivity.
  - vm_compute. reflexivity.
  - lia.
Defined.

(** X11. For a signature made by [sign] with the key [d],
    [calcPubKeyRecoveryParam] given [d.G] returns the id 0 or 1, and
    [recoverPubKey] with that id returns [d.G], whenever no point of the
    curve has an abscissa that differs from [r] by a multiple of [n] and
    [2e + d r] is not a multiple of [n]. *)
Theorem sign_recovery_param_found {hash_primitives : HashPrimitives} {Point : Type}
    (curve : ecurve.Curve Point) (fuel : nat) (hash : Buffer.t) (d : Z)
    (nonce : option N) (signature : ECSignature.t) :
  CurveLaws curve -> RecoveryLaws curve ->
  let n := ecurve.n curve in
  let e := BigInteger.fromBuffer hash in
  let r := ECSignature.r signature in
  let Q := ecurve.multiply curve (ecurve.G curve) d in
  0 < d < n ->
  sign fuel curve hash d nonce = Normal signature ->
  (forall k x, 0 < k < n ->
               ecurve.affineX curve (ecurve.multiply curve (ecurve.G curve) k) = Some x ->
               x mod n = r -> x = r) ->
  (2 * e + d * r) mod n <> 0 ->
  exists i, 0 <= i <= 1
            /\ calcPubKeyRecoveryParam curve e signature Q = Normal i
            /\ recoverPubKey curve e signature i = Normal Q.
Proof.
  intros laws recovery_laws n e r Q.
  exact (recovery_completes curve laws recovery_laws fuel hash d nonce signature).
Qed.

Lemma sign_recovery_param_found_witness :
  sign (hash_primitives := Toy.hashes) 8 Toy.curve (Toy.digest 5) 7 None
  = Normal (ECSignature.new 5 5)
  /\ exists i, 0 <= i <= 1
               /\ calcPubKeyRecoveryParam Toy.curve 5 (ECSignature.new 5 5) (Toy.publicKey 7)
                  = Normal i
               /\ recoverPubKey Toy.curve 5 (ECSignature.new 5 5) i = Normal (Toy.publicKey 7).
Proof.
  split; [vm_compute; reflexivity | ].
  apply (sign_recovery_param_found (hash_primitives := Toy.hashes) Toy.curve 8
           (Toy.digest 5) 7 None (ECSignature.new 5 5) toy_curve_laws toy_recovery_laws).
  - cbn. lia.
  - vm_compute. reflexivity.
  - intros k x Hk Hx Hmod. cbn in Hk.
    assert (Hcases : k = 1 \/ k = 2 \/ k = 3 \/ k = 4 \/ k = 5 \/ k = 6 \/ k = 7 \/ k = 8
                     \/ k = 9 \/ k = 10 \/ k = 11 \/ k = 12) by lia.
    repeat (destruct Hcases as [-> | Hcases];
            [vm_compute in Hx; injection Hx as <-; vm_compute in Hmod;
             first [discriminate Hmod | reflexivity] | ]).
    subst k. vm_compute in Hx. injection Hx as <-. vm_compute in Hmod.
    first [discriminate Hmod | reflexivity].
  - vm_compute. discriminate.
Defined.

(** X12. A point returned by [recoverPubKey] is killed by the order [n]:
    the assertion on [n.R] keeps the recovered key in the subgroup of the
    points of order dividing [n]. *)
Theorem recovered_key_order {Point : Type} (curve : ecurve.Curve Point)
    (e : Z) (signature : ECSignature.t) (i : Z) (Q : Point) :
  CurveLaws curve ->
  recoverPubKey curve e signature i = Normal Q ->
  ecurve.multiply curve Q (ecurve.n curve) = ecurve.infinity curve.
Proof.
  intros laws Hrec.
  pose proof (order_ge_2 curve laws) as Hn.
  destruct (recoverPubKey_returned curve laws e signature i Q Hrec)
    as [_ [Hr [Hs [R [_ [HnR [-> _]]]]]]].
  pose proof (Z.mod_pos_bound (- e) (ecurve.n curve) ltac:(lia)).
  pose proof (invmod_range curve laws (ECSignature.r signature)).
  apply (order_multiply curve laws); [ | lia].
  rewrite (multiplyTwo_spec curve laws) by lia.
  apply (order_add curve laws); apply (order_multiply curve laws); try lia;
    [exact HnR | apply (G_order curve laws)].
Qed.

Lemma recovered_key_order_witness :
  recoverPubKey Toy.curve 2 (ECSignature.new 3 3) 2 = Normal Toy.P3_4
  /\ Toy.multiply Toy.P3_4 13 = Toy.Inf.
Proof.
  split; [vm_compute; reflexivity | ].
  apply (recovered_key_order Toy.curve 2 (ECSignature.new 3 3) 2 Toy.P3_4 toy_curve_laws).
  vm_compute. reflexivity.
Defined.
